(** * HTTP JSON-RPC gateway (httprpc.cpp): authentication, request translation,
      error mapping, one-shot timers and start-up.

    The development embeds the functions of httprpc.cpp shallowly:
    - strings are [string] (std::string), characters are 8-bit [ascii];
    - C++ exceptions are an explicit [Outcome] (value or thrown object);
    - calls on the HTTPRequest, the log, the sleep and the method registry are
      recorded, in program order, in a trace of [Event]s;
    - the local [JSONRequest jreq] is threaded as state, because the catch
      handlers read [jreq.id] after a throw.
    Collaborators that are not part of httprpc.cpp (json_spirit, the method
    registry, the warm-up flag) are the fields of the class [RPCBackend]. *)

From Stdlib Require Import ZArith Ascii Bool Lia.
From Stdlib Require String.
From stdpp Require Import base option list strings pretty gmap.

Local Open Scope Z_scope.

(* ===================================================================== *)
(** ** json_spirit values *)
(* ===================================================================== *)

(** json_spirit::Value (the JSON library the sources include): a tagged
    union. An Object is an ordered vector of (name, value) pairs, duplicates
    allowed. A real is kept as the bit pattern of its double. *)
#[warnings="-register-all"]
Inductive Value : Type :=
| Vnull
| Vbool (b : bool)
| Vint (i : Z)
| Vreal (bits : Z)
| Vstr (s : string)
| Varray (a : list Value)
| Vobj (o : list (string * Value)).

Abbreviation Object := (list (string * Value)).
Abbreviation Array := (list Value).

Inductive Value_type : Type :=
| obj_type | array_type | str_type | bool_type | int_type | real_type | null_type.

Definition type (v : Value) : Value_type :=
  match v with
  | Vnull => null_type
  | Vbool _ => bool_type
  | Vint _ => int_type
  | Vreal _ => real_type
  | Vstr _ => str_type
  | Varray _ => array_type
  | Vobj _ => obj_type
  end.

(** json_spirit find_value: the first pair with that name, Value::null when
    there is none. *)
Fixpoint find_value (obj : Object) (name : string) : Value :=
  match obj with
  | [] => Vnull
  | (n, v) :: rest => if String.eqb n name then v else find_value rest name
  end.

(* ===================================================================== *)
(** ** Exceptions *)
(* ===================================================================== *)

(** What the code throws and catches: a json_spirit::Object (the JSON-RPC
    error object) or a std::exception with its what() text. *)
Inductive Exn : Type :=
| ExObject (objError : Object)
| ExStd (what : string).

Inductive Outcome (A : Type) : Type :=
| Ret (a : A)
| Throw (e : Exn).
Arguments Ret {A} a.
Arguments Throw {A} e.

#[global] Instance Outcome_ret : MRet Outcome := fun A a => Ret a.
#[global] Instance Outcome_bind : MBind Outcome := fun A B f m =>
  match m with
  | Ret a => f a
  | Throw e => Throw e
  end.

(** static_cast<int> of a 64-bit integer: the value modulo 2^32, as a
    signed 32-bit int. *)
Definition to_int (i : Z) : Z := (i + 2 ^ 31) mod 2 ^ 32 - 2 ^ 31.

(** Value::get_int: throws std::runtime_error unless the value is an int;
    the stored 64-bit integer is returned as an int, so a value outside the
    int range is narrowed. *)
Definition get_int (v : Value) : Outcome Z :=
  match v with
  | Vint i => Ret (to_int i)
  | _ => Throw (ExStd "value type is not int")
  end.

(* ===================================================================== *)
(** ** std::string and boost::trim *)
(* ===================================================================== *)

Definition empty (s : string) : bool :=
  match s with
  | EmptyString => true
  | String _ _ => false
  end.

Fixpoint take_chars (n : nat) (s : string) : string :=
  match n, s with
  | S n', String c s' => String c (take_chars n' s')
  | _, _ => EmptyString
  end.

Fixpoint drop_chars (n : nat) (s : string) : string :=
  match n, s with
  | S n', String _ s' => drop_chars n' s'
  | _, _ => s
  end.

(** std::string::substr(pos, len): throws std::out_of_range when pos is past
    the end; [len = None] is the default npos. *)
Definition substr (s : string) (pos : nat) (len : option nat) : Outcome string :=
  if (String.length s <? pos)%nat
  then Throw (ExStd "basic_string::substr")
  else Ret (match len with
            | Some n => take_chars n (drop_chars pos s)
            | None => drop_chars pos s
            end).

(** std::isspace in the classic locale: space, \t, \n, \v, \f, \r. *)
Definition is_space (c : ascii) : bool :=
  let n := N_of_ascii c in
  (N.eqb n 32 || (N.leb 9 n && N.leb n 13))%bool.

Fixpoint trim_left (s : string) : string :=
  match s with
  | EmptyString => EmptyString
  | String c s' => if is_space c then trim_left s' else s
  end.

Fixpoint trim_right (s : string) : string :=
  match s with
  | EmptyString => EmptyString
  | String c s' =>
      match trim_right s' with
      | EmptyString => if is_space c then EmptyString else String c EmptyString
      | t => String c t
      end
  end.

(** boost::trim: trim_right_if, then trim_left_if, with is_space. *)
Definition trim (s : string) : string := trim_left (trim_right s).

(* ===================================================================== *)
(** ** utilstrencodings: TimingResistantEqual, base64 *)
(* ===================================================================== *)

Definition char_code (c : ascii) : Z := Z.of_N (N_of_ascii c).

Definition char_at (s : string) (i : nat) : Z :=
  match String.get i s with
  | Some c => char_code c
  | None => 0
  end.

(** Modelled from the spec: TimingResistantEqual is declared in
    utilstrencodings, which is not among the sources. The spec asks for an
    equality check whose cost does not depend on where the strings first
    differ: every position of [a] is visited and the differences are
    accumulated with xor and or, there is no early exit. *)
Definition TimingResistantEqual (a b : string) : bool :=
  if (String.length b =? 0)%nat then (String.length a =? 0)%nat
  else
    let accumulator :=
      fold_left
        (fun acc i => Z.lor acc (Z.lxor (char_at a i) (char_at b (i mod String.length b))))
        (seq 0 (String.length a))
        (Z.lxor (Z.of_nat (String.length a)) (Z.of_nat (String.length b))) in
    accumulator =? 0.

(** Modelled from the spec: the base64 codec (EncodeBase64, DecodeBase64) is
    in utilstrencodings, which is not among the sources. The spec names the
    encoding only as base64, so this is RFC 4648 with the standard alphabet
    and '=' padding. A six-bit group is an [ascii] whose two top bits are
    clear; bit 0 of [Ascii b0 .. b7] is the least significant. *)
Definition b64_alphabet : string :=
  "ABCDEFGHIJKLMNOPQRSTUVWXYZabcdefghijklmnopqrstuvwxyz0123456789+/".

Definition b64_pad : ascii := "="%char.

Definition b64_char (sextet : ascii) : ascii :=
  match String.get (nat_of_ascii sextet) b64_alphabet with
  | Some c => c
  | None => b64_pad
  end.

Fixpoint index_of (c : ascii) (s : string) : option nat :=
  match s with
  | EmptyString => None
  | String d s' => if Ascii.eqb c d then Some 0%nat else S <$> index_of c s'
  end.

Definition b64_value (c : ascii) : option ascii :=
  ascii_of_nat <$> index_of c b64_alphabet.

(** Three bytes as four six-bit groups:
    a >> 2, (a & 3) << 4 | b >> 4, (b & 15) << 2 | c >> 6, c & 63. *)
Definition b64_split (a b c : ascii) : ascii * ascii * ascii * ascii :=
  let '(Ascii a0 a1 a2 a3 a4 a5 a6 a7) := a in
  let '(Ascii b0 b1 b2 b3 b4 b5 b6 b7) := b in
  let '(Ascii c0 c1 c2 c3 c4 c5 c6 c7) := c in
  (Ascii a2 a3 a4 a5 a6 a7 false false,
   Ascii b4 b5 b6 b7 a0 a1 false false,
   Ascii c6 c7 b0 b1 b2 b3 false false,
   Ascii c0 c1 c2 c3 c4 c5 false false).

(** Four six-bit groups as three bytes:
    s0 << 2 | s1 >> 4, (s1 & 15) << 4 | s2 >> 2, (s2 & 3) << 6 | s3. *)
Definition b64_join (s0 s1 s2 s3 : ascii) : ascii * ascii * ascii :=
  let '(Ascii p0 p1 p2 p3 p4 p5 _ _) := s0 in
  let '(Ascii q0 q1 q2 q3 q4 q5 _ _) := s1 in
  let '(Ascii r0 r1 r2 r3 r4 r5 _ _) := s2 in
  let '(Ascii t0 t1 t2 t3 t4 t5 _ _) := s3 in
  (Ascii q4 q5 p0 p1 p2 p3 p4 p5,
   Ascii r2 r3 r4 r5 q0 q1 q2 q3,
   Ascii t0 t1 t2 t3 t4 t5 r0 r1).

Fixpoint EncodeBase64 (s : string) : string :=
  match s with
  | EmptyString => EmptyString
  | String a EmptyString =>
      let '(s0, s1, _, _) := b64_split a zero zero in
      String (b64_char s0) (String (b64_char s1)
        (String b64_pad (String b64_pad EmptyString)))
  | String a (String b EmptyString) =>
      let '(s0, s1, s2, _) := b64_split a b zero in
      String (b64_char s0) (String (b64_char s1)
        (String (b64_char s2) (String b64_pad EmptyString)))
  | String a (String b (String c rest)) =>
      let '(s0, s1, s2, s3) := b64_split a b c in
      String (b64_char s0) (String (b64_char s1)
        (String (b64_char s2) (String (b64_char s3) (EncodeBase64 rest))))
  end.

(** The last group of four characters: "xx==" is one byte, "xxx=" two bytes,
    "xxxx" three; the bits that the padding leaves unused must be zero. *)
Definition b64_decode_last (c0 c1 c2 c3 : ascii) : option string :=
  if Ascii.eqb c3 b64_pad then
    if Ascii.eqb c2 b64_pad then
      s0 ← b64_value c0; s1 ← b64_value c1;
      let '(a, b, _) := b64_join s0 s1 zero zero in
      if Ascii.eqb b zero then Some (String a EmptyString) else None
    else
      s0 ← b64_value c0; s1 ← b64_value c1; s2 ← b64_value c2;
      let '(a, b, c) := b64_join s0 s1 s2 zero in
      if Ascii.eqb c zero then Some (String a (String b EmptyString)) else None
  else
    s0 ← b64_value c0; s1 ← b64_value c1; s2 ← b64_value c2; s3 ← b64_value c3;
    let '(a, b, c) := b64_join s0 s1 s2 s3 in
    Some (String a (String b (String c EmptyString))).

(** Strict decoding: [None] on a length that is not a multiple of four, a
    character outside the alphabet, misplaced padding or non-zero spare bits. *)
Fixpoint DecodeBase64_checked (s : string) : option string :=
  match s with
  | EmptyString => Some EmptyString
  | String c0 (String c1 (String c2 (String c3 rest))) =>
      match rest with
      | EmptyString => b64_decode_last c0 c1 c2 c3
      | String _ _ =>
          s0 ← b64_value c0; s1 ← b64_value c1; s2 ← b64_value c2; s3 ← b64_value c3;
          t ← DecodeBase64_checked rest;
          let '(a, b, c) := b64_join s0 s1 s2 s3 in
          Some (String a (String b (String c t)))
      end
  | _ => None
  end.

(** Modelled from the spec: DecodeBase64 returns a std::string (that is how
    RPCAuthorized receives it), and the spec treats a decoding failure as
    input that does not match: a failed decode is the empty string, which
    RPCAuthorized never accepts because it rejects an empty credential first. *)
Definition DecodeBase64 (s : string) : string :=
  match DecodeBase64_checked s with
  | Some t => t
  | None => EmptyString
  end.

(* ===================================================================== *)
(** ** RPCAuthorized *)
(* ===================================================================== *)

(** [strRPCUserColonPass] is the file-level static of httprpc.cpp, passed
    explicitly. *)
Definition RPCAuthorized (strRPCUserColonPass strAuth : string) : Outcome bool :=
  if empty strRPCUserColonPass then Ret false
  else
    scheme ← substr strAuth 0 (Some 6%nat);
    if negb (String.eqb scheme "Basic ") then Ret false
    else
      strUserPass64 ← substr strAuth 6 None;
      let strUserPass64 := trim strUserPass64 in
      let strUserPass := DecodeBase64 strUserPass64 in
      Ret (TimingResistantEqual strUserPass strRPCUserColonPass).

(* ===================================================================== *)
(** ** rpcprotocol: status codes, error objects, reply envelopes *)
(* ===================================================================== *)

(** Modelled from the spec: the HTTP status codes are declared in
    rpcprotocol.h, which is not among the sources; the spec names them by
    their number (the 200-, 400-, 401-, 404-, 405- and 500-equivalent). *)
Definition HTTP_OK : Z := 200.
Definition HTTP_BAD_REQUEST : Z := 400.
Definition HTTP_UNAUTHORIZED : Z := 401.
Definition HTTP_NOT_FOUND : Z := 404.
Definition HTTP_BAD_METHOD : Z := 405.
Definition HTTP_INTERNAL_SERVER_ERROR : Z := 500.

(** Modelled from the spec: the RPC error codes are declared in
    rpcprotocol.h, which is not among the sources. The spec names four of
    them (invalid request, method not found, parse error, in warm-up) and
    gives no numbers; the first three carry their JSON-RPC 2.0 values, the
    last one the value bitcoind uses. Only their being distinct matters. *)
Definition RPC_INVALID_REQUEST : Z := -32600.
Definition RPC_METHOD_NOT_FOUND : Z := -32601.
Definition RPC_PARSE_ERROR : Z := -32700.
Definition RPC_IN_WARMUP : Z := -28.

(** Modelled from the spec: JSONRPCError is defined in rpcprotocol.cpp, which
    is not among the sources. An RPC error is {code: integer, message: string}. *)
Definition JSONRPCError (code : Z) (message : string) : Object :=
  [("code", Vint code); ("message", Vstr message)].

(** Modelled from the spec: JSONRPCReplyObj is defined in rpcprotocol.cpp,
    which is not among the sources. A response is {result, error, id}; with
    an error the result is JSON null. *)
Definition JSONRPCReplyObj (result error id : Value) : Object :=
  [("result", match error with Vnull => result | _ => Vnull end);
   ("error", error);
   ("id", id)].

(** The collaborators of httprpc.cpp that are outside the repository's core:
    json_spirit's reader and writer, the method registry (tableRPC.execute)
    and the warm-up flag (RPCIsInWarmup: the flag and the status text). *)
Class RPCBackend : Type := {
  read_string : string -> option Value;
  write_string : Value -> string;
  tableRPC_execute : string -> Value -> Outcome Value;
  RPCIsInWarmup : bool * string
}.

(** Modelled from the spec: JSONRPCReply (rpcprotocol.cpp, not among the
    sources) is the serialized envelope. *)
Definition JSONRPCReply `{RPCBackend} (result error id : Value) : string :=
  write_string (Vobj (JSONRPCReplyObj result error id)).

(* ===================================================================== *)
(** ** Effects *)
(* ===================================================================== *)

(** HTTPRequest as httpserver.h declares it: the getters are fields, the
    writers are events. *)
Inductive RequestMethod : Type := UNKNOWN | GET | POST | HEAD | PUT.

Definition RequestMethod_eqb (a b : RequestMethod) : bool :=
  match a, b with
  | UNKNOWN, UNKNOWN | GET, GET | POST, POST | HEAD, HEAD | PUT, PUT => true
  | _, _ => false
  end.

Record HTTPRequest : Type := {
  GetRequestMethod : RequestMethod;
  GetHeader : string -> bool * string;
  ReadBody : string;
  GetPeer : string
}.

Inductive Event : Type :=
| EvLogPrintf (msg : string)
| EvMilliSleep (ms : Z)
| EvWriteHeader (hdr value : string)
| EvWriteReply (nStatus : Z) (strReply : string)
| EvExecute (strMethod : string) (params : Value).

(** Modelled from the spec: JSONRequest is declared in rpcserver.h, which is
    not among the sources. It holds the id, the method and the params of a
    call; a fresh one has the id JSON null (the value a json_spirit::Value
    is constructed with). *)
Record JSONRequest : Type := {
  id : Value;
  strMethod : string;
  params : Value
}.

Definition JSONRequest_new : JSONRequest :=
  {| id := Vnull; strMethod := EmptyString; params := Varray [] |}.

(** A computation in the body of a handler: it reads and writes the local
    [jreq], appends to the trace and returns or throws. The state and the
    trace survive a throw. *)
Definition Eff (A : Type) : Type :=
  JSONRequest -> list Event * JSONRequest * Outcome A.

#[global] Instance Eff_ret : MRet Eff := fun A a jreq => ([], jreq, Ret a).
#[global] Instance Eff_bind : MBind Eff := fun A B f m jreq =>
  let '(t1, jreq1, r) := m jreq in
  match r with
  | Ret a => let '(t2, jreq2, r2) := f a jreq1 in (t1 ++ t2, jreq2, r2)
  | Throw e => (t1, jreq1, Throw e)
  end.

Definition emit (ev : Event) : Eff unit := fun jreq => ([ev], jreq, Ret tt).
Definition throw {A} (e : Exn) : Eff A := fun jreq => ([], jreq, Throw e).
Definition lift {A} (r : Outcome A) : Eff A := fun jreq => ([], jreq, r).
Definition get_jreq : Eff JSONRequest := fun jreq => ([], jreq, Ret jreq).
Definition put_jreq (j : JSONRequest) : Eff unit := fun _ => ([], j, Ret tt).

(** try { body } catch (...) { handler }. *)
Definition try_catch {A} (body : Eff A) (handler : Exn -> Eff A) : Eff A :=
  fun jreq =>
    let '(t1, jreq1, r) := body jreq in
    match r with
    | Ret a => (t1, jreq1, Ret a)
    | Throw e => let '(t2, jreq2, r2) := handler e jreq1 in (t1 ++ t2, jreq2, r2)
    end.

Notation "m ;; k" := (mbind (fun _ : unit => k) m)
  (at level 100, k at level 200, right associativity).

Definition newline : string := String (ascii_of_nat 10) EmptyString.

Definition LogPrintf (msg : string) : Eff unit := emit (EvLogPrintf msg).
Definition MilliSleep (ms : Z) : Eff unit := emit (EvMilliSleep ms).
Definition WriteHeader (hdr value : string) : Eff unit := emit (EvWriteHeader hdr value).
Definition WriteReply (nStatus : Z) (strReply : string) : Eff unit :=
  emit (EvWriteReply nStatus strReply).

(** Running a handler from a fresh frame: the trace and the outcome. *)
Definition run {A} (m : Eff A) : list Event * Outcome A :=
  let '(t, _, r) := m JSONRequest_new in (t, r).

(* ===================================================================== *)
(** ** rpcserver: JSONRequest::parse, the registry call, batches *)
(* ===================================================================== *)

(** Modelled from the spec: JSONRequest::parse is defined in rpcserver.cpp,
    which is not among the sources. The spec says: extract method, params
    and id from a single call {method: string, params: array|object, id: any};
    a missing params is the empty array. The id is stored before anything
    can fail; a request that is not of that shape is an RPC error with the
    invalid-request code. *)
Definition JSONRequest_parse (valRequest : Value) : Eff unit :=
  match valRequest with
  | Vobj request =>
      jreq ← get_jreq;
      put_jreq {| id := find_value request "id";
                  strMethod := strMethod jreq; params := params jreq |};;
      match find_value request "method" with
      | Vnull => throw (ExObject (JSONRPCError RPC_INVALID_REQUEST "Missing method"))
      | Vstr m =>
          jreq ← get_jreq;
          put_jreq {| id := id jreq; strMethod := m; params := params jreq |};;
          match find_value request "params" with
          | (Varray _ | Vobj _) as valParams =>
              jreq ← get_jreq;
              put_jreq {| id := id jreq; strMethod := strMethod jreq; params := valParams |}
          | Vnull =>
              jreq ← get_jreq;
              put_jreq {| id := id jreq; strMethod := strMethod jreq; params := Varray [] |}
          | _ => throw (ExObject (JSONRPCError RPC_INVALID_REQUEST "Invalid params"))
          end
      | _ => throw (ExObject (JSONRPCError RPC_INVALID_REQUEST "Method must be a string"))
      end
  | _ => throw (ExObject (JSONRPCError RPC_INVALID_REQUEST "Invalid Request object"))
  end.

(** tableRPC.execute: the call is recorded, then the registry's outcome is
    returned or thrown. *)
Definition execute `{RPCBackend} (method : string) (args : Value) : Eff Value :=
  emit (EvExecute method args);; lift (tableRPC_execute method args).

(** Modelled from the spec: JSONRPCExecBatch is defined in rpcserver.cpp,
    which is not among the sources. Each element is an independent single
    call; a failure yields the error envelope of that element only; the
    output keeps the order and the length of the input. *)
Definition JSONRPCExecOne `{RPCBackend} (req : Value) : Eff Value :=
  put_jreq JSONRequest_new;;
  try_catch
    (JSONRequest_parse req;;
     jreq ← get_jreq;
     result ← execute (strMethod jreq) (params jreq);
     mret (Vobj (JSONRPCReplyObj result Vnull (id jreq))))
    (fun e =>
       jreq ← get_jreq;
       match e with
       | ExObject objError =>
           mret (Vobj (JSONRPCReplyObj Vnull (Vobj objError) (id jreq)))
       | ExStd what =>
           mret (Vobj (JSONRPCReplyObj Vnull
                         (Vobj (JSONRPCError RPC_PARSE_ERROR what)) (id jreq)))
       end).

Fixpoint JSONRPCExecEach `{RPCBackend} (vReq : Array) : Eff Array :=
  match vReq with
  | [] => mret []
  | req :: rest =>
      r ← JSONRPCExecOne req;
      rs ← JSONRPCExecEach rest;
      mret (r :: rs)
  end.

(** The batch runs on request objects of its own: the caller's [jreq] is
    left as it was. *)
Definition JSONRPCExecBatch `{RPCBackend} (vReq : Array) : Eff string :=
  saved ← get_jreq;
  ret ← JSONRPCExecEach vReq;
  put_jreq saved;;
  mret (write_string (Varray ret)).

(* ===================================================================== *)
(** ** httprpc.cpp: JSONErrorReply and HTTPReq_JSONRPC *)
(* ===================================================================== *)

(** The status JSONErrorReply chooses for an error code (its local nStatus). *)
Definition JSONErrorReply_nStatus (code : Z) : Z :=
  let nStatus := HTTP_INTERNAL_SERVER_ERROR in
  if code =? RPC_INVALID_REQUEST then HTTP_BAD_REQUEST
  else if code =? RPC_METHOD_NOT_FOUND then HTTP_NOT_FOUND
  else nStatus.

Definition JSONErrorReply `{RPCBackend} (objError : Object) (id : Value) : Eff unit :=
  code ← lift (get_int (find_value objError "code"));
  let nStatus := JSONErrorReply_nStatus code in
  let strReply := JSONRPCReply Vnull (Vobj objError) id in
  WriteHeader "Content-Type" "application/json";;
  WriteReply nStatus strReply.

(** The try block of HTTPReq_JSONRPC. *)
Definition HTTPReq_JSONRPC_body `{RPCBackend} (req : HTTPRequest) : Eff unit :=
  let strRequest := ReadBody req in
  match read_string strRequest with
  | None => throw (ExObject (JSONRPCError RPC_PARSE_ERROR "Parse error"))
  | Some valRequest =>
      let '(inWarmup, warmupStatus) := RPCIsInWarmup in
      if inWarmup then throw (ExObject (JSONRPCError RPC_IN_WARMUP warmupStatus))
      else
        strReply ←
          match valRequest with
          | Vobj _ =>
              JSONRequest_parse valRequest;;
              jreq ← get_jreq;
              result ← execute (strMethod jreq) (params jreq);
              jreq ← get_jreq;
              mret (JSONRPCReply result Vnull (id jreq))
          | Varray a => JSONRPCExecBatch a
          | _ => throw (ExObject (JSONRPCError RPC_PARSE_ERROR "Top-level object parse error"))
          end;
        WriteHeader "Content-Type" "application/json";;
        WriteReply HTTP_OK strReply
  end.

(** HTTPReq_JSONRPC. The [return true] that follows the try block is the
    last step of the protected body here; each handler ends in its own
    [return false]. *)
Definition HTTPReq_JSONRPC `{RPCBackend}
    (strRPCUserColonPass : string) (req : HTTPRequest) : Eff bool :=
  if negb (RequestMethod_eqb (GetRequestMethod req) POST) then
    WriteReply HTTP_BAD_METHOD "JSONRPC server handles only POST requests";;
    mret false
  else
    let authHeader := GetHeader req "authorization" in
    if negb (fst authHeader) then
      WriteReply HTTP_UNAUTHORIZED EmptyString;;
      mret false
    else
      authorized ← lift (RPCAuthorized strRPCUserColonPass (snd authHeader));
      if negb authorized then
        LogPrintf ("ThreadRPCServer incorrect password attempt from "
                   +:+ GetPeer req +:+ newline);;
        MilliSleep 250;;
        WriteReply HTTP_UNAUTHORIZED EmptyString;;
        mret false
      else
        put_jreq JSONRequest_new;;
        try_catch
          (HTTPReq_JSONRPC_body req;; mret true)
          (fun e =>
             jreq ← get_jreq;
             match e with
             | ExObject objError =>
                 JSONErrorReply objError (id jreq);; mret false
             | ExStd what =>
                 JSONErrorReply (JSONRPCError RPC_PARSE_ERROR what) (id jreq);;
                 mret false
             end).

(* ===================================================================== *)
(** ** httprpc.cpp: the credential store and the gateway's start *)
(* ===================================================================== *)

(** The file-level statics of httprpc.cpp and the process state its
    start-up touches: the argument map, the handlers registered with the
    HTTP server, the timer interface registered with the RPC server, and
    the message boxes shown (configuration file, suggested password). *)
Record Globals : Type := {
  mapArgs : gmap string string;
  strRPCUserColonPass : string;
  httpRPCTimerInterface : option nat;
  pathHandlers : list (string * bool);
  timerInterface : option string;
  messageBoxes : list (string * string)
}.

(** std::map::operator[]: a missing key is inserted with the empty string. *)
Definition map_subscript (k : string) (m : gmap string string)
  : string * gmap string string :=
  match m !! k with
  | Some v => (v, m)
  | None => (EmptyString, <[k := EmptyString]> m)
  end.

(** [strRandPwd] is EncodeBase58 of the 32 bytes of GetRandBytes,
    [RequireRPCPassword] is Params().RequireRPCPassword(). The condition
    subscripts mapArgs again; both keys exist by then, so the values are the
    ones of the first statement and the map does not change. *)
Definition InitRPCAuthentication (RequireRPCPassword : bool)
    (strConfigFile strRandPwd : string) (g : Globals) : Globals * bool :=
  let '(rpcuser, m1) := map_subscript "-rpcuser" (mapArgs g) in
  let '(rpcpassword, m2) := map_subscript "-rpcpassword" m1 in
  let cred := rpcuser +:+ ":" +:+ rpcpassword in
  if (String.eqb rpcpassword EmptyString || String.eqb rpcuser rpcpassword)
     && RequireRPCPassword
  then
    ({| mapArgs := m2; strRPCUserColonPass := cred;
        httpRPCTimerInterface := httpRPCTimerInterface g;
        pathHandlers := pathHandlers g;
        timerInterface := timerInterface g;
        messageBoxes := messageBoxes g ++ [(strConfigFile, strRandPwd)] |}, false)
  else
    ({| mapArgs := m2; strRPCUserColonPass := cred;
        httpRPCTimerInterface := httpRPCTimerInterface g;
        pathHandlers := pathHandlers g;
        timerInterface := timerInterface g;
        messageBoxes := messageBoxes g |}, true).

(** Modelled from the spec: RegisterHTTPHandler is defined in
    httpserver.cpp, which is not among the sources. It adds one
    registration of the path (prefix, exactMatch). Where in the list the
    new registration goes is a choice of this model (the head); the
    properties of StopHTTPRPC below are stated so that they hold for any
    position. *)
Definition RegisterHTTPHandler (prefix : string) (exactMatch : bool)
    (handlers : list (string * bool)) : list (string * bool) :=
  (prefix, exactMatch) :: handlers.

(** StartHTTPRPC. [EventBase] is the pointer EventBase() returns, [None]
    for null; the result is [None] when assert(EventBase()) aborts. The
    debug-log line is left out. RPCRegisterTimerInterface belongs to
    rpcserver.cpp, which is not among the sources: the field timerInterface
    records the name of the interface it was last given. *)
Definition StartHTTPRPC (RequireRPCPassword : bool)
    (strConfigFile strRandPwd : string) (EventBase : option nat) (g : Globals)
  : option (Globals * bool) :=
  let '(g1, ok) := InitRPCAuthentication RequireRPCPassword strConfigFile strRandPwd g in
  if negb ok then Some (g1, false)
  else
    match EventBase with
    | None => None
    | Some base =>
        Some ({| mapArgs := mapArgs g1;
                 strRPCUserColonPass := strRPCUserColonPass g1;
                 httpRPCTimerInterface := Some base;
                 pathHandlers := RegisterHTTPHandler "/" true (pathHandlers g1);
                 timerInterface := Some "HTTP";
                 messageBoxes := messageBoxes g1 |}, true)
    end.

(** Modelled from the spec: UnregisterHTTPHandler is defined in
    httpserver.cpp, which is not among the sources. It removes one
    registration of the path (prefix, exactMatch), the first it finds, and
    does nothing when there is none. *)
Fixpoint UnregisterHTTPHandler (prefix : string) (exactMatch : bool)
    (handlers : list (string * bool)) : list (string * bool) :=
  match handlers with
  | [] => []
  | h :: rest =>
      if String.eqb (fst h) prefix && Bool.eqb (snd h) exactMatch
      then rest
      else h :: UnregisterHTTPHandler prefix exactMatch rest
  end.

(** StopHTTPRPC: the handler of "/" is unregistered; the timer interface is
    unregistered from the RPC server, deleted and zeroed only if the pointer
    is set. The debug-log line is left out. *)
Definition StopHTTPRPC (g : Globals) : Globals :=
  let handlers := UnregisterHTTPHandler "/" true (pathHandlers g) in
  match httpRPCTimerInterface g with
  | Some _ =>
      {| mapArgs := mapArgs g;
         strRPCUserColonPass := strRPCUserColonPass g;
         httpRPCTimerInterface := None;
         pathHandlers := handlers;
         timerInterface := None;
         messageBoxes := messageBoxes g |}
  | None =>
      {| mapArgs := mapArgs g;
         strRPCUserColonPass := strRPCUserColonPass g;
         httpRPCTimerInterface := httpRPCTimerInterface g;
         pathHandlers := handlers;
         timerInterface := timerInterface g;
         messageBoxes := messageBoxes g |}
  end.

(* ===================================================================== *)
(** ** HTTPEvent and HTTPRPCTimer *)
(* ===================================================================== *)

(** Modelled from the spec: HTTPEvent is declared in httpserver.h and
    defined in httpserver.cpp, which is not among the sources. From the
    declaration and the spec: an event belongs to one event loop; trigger
    arms it (at once for a null timeval, after the delay otherwise); when
    the loop dispatches it, _handle calls the closure once and the event is
    no longer armed; it deletes itself then exactly when it was created with
    deleteWhenTriggered; its destructor releases the registration, armed or
    not. A boost::function is known by a name. *)
Record HTTPEvent : Type := {
  deleteWhenTriggered : bool;
  handler : string;
  armed : option Z
}.

(** The event loop: the live events by address, the next free address, and
    the closures called so far, each with the event that called it. *)
Record event_base : Type := {
  events : gmap nat HTTPEvent;
  next_event : nat;
  called : list (nat * string)
}.

Definition event_base_new : event_base :=
  {| events := ∅; next_event := 0; called := [] |}.

Definition HTTPEvent_new (base : event_base) (deleteWhenTriggered : bool)
    (handler : string) : nat * event_base :=
  let ev := next_event base in
  (ev, {| events := <[ev := {| deleteWhenTriggered := deleteWhenTriggered;
                               handler := handler; armed := None |}]> (events base);
          next_event := S ev;
          called := called base |}).

Definition HTTPEvent_trigger (ev : nat) (tv : option Z) (base : event_base) : event_base :=
  {| events := alter (fun e => {| deleteWhenTriggered := deleteWhenTriggered e;
                                  handler := handler e;
                                  armed := Some (default 0 tv) |}) ev (events base);
     next_event := next_event base;
     called := called base |}.

Definition HTTPEvent_delete (ev : nat) (base : event_base) : event_base :=
  {| events := delete ev (events base);
     next_event := next_event base;
     called := called base |}.

(** The loop dispatches [ev]: nothing happens unless it is live and armed. *)
Definition HTTPEvent_handle (ev : nat) (base : event_base) : event_base :=
  match events base !! ev with
  | Some e =>
      match armed e with
      | Some _ =>
          let fired :=
            {| events := <[ev := {| deleteWhenTriggered := deleteWhenTriggered e;
                                    handler := handler e; armed := None |}]> (events base);
               next_event := next_event base;
               called := called base ++ [(ev, handler e)] |} in
          if deleteWhenTriggered e then HTTPEvent_delete ev fired else fired
      | None => base
      end
  | None => base
  end.

(** HTTPRPCTimer: its only member is the HTTPEvent [ev]. The constructor is
    ev(eventBase, false, new Handler(func)) followed by ev.trigger(&tv) with
    tv = {seconds, 0}. *)
Record HTTPRPCTimer : Type := { ev : nat }.

Definition HTTPRPCTimer_new (eventBase : event_base) (func : string) (seconds : Z)
  : HTTPRPCTimer * event_base :=
  let '(e, base1) := HTTPEvent_new eventBase false func in
  ({| ev := e |}, HTTPEvent_trigger e (Some seconds) base1).

(** HTTPRPCTimerInterface::NewTimer. *)
Definition NewTimer (base : event_base) (func : string) (seconds : Z)
  : HTTPRPCTimer * event_base :=
  HTTPRPCTimer_new base func seconds.

(** delete on the RPCTimerBase*: the member's destructor runs. *)
Definition HTTPRPCTimer_delete (t : HTTPRPCTimer) (base : event_base) : event_base :=
  HTTPEvent_delete (ev t) base.

(** What can happen to the loop over time. *)
Inductive LoopAction : Type :=
| Dispatch (e : nat)
| DeleteTimer (t : HTTPRPCTimer)
| Schedule (func : string) (seconds : Z).

Definition loop_step (a : LoopAction) (base : event_base) : event_base :=
  match a with
  | Dispatch e => HTTPEvent_handle e base
  | DeleteTimer t => HTTPRPCTimer_delete t base
  | Schedule func seconds => snd (NewTimer base func seconds)
  end.

Definition loop_run (acts : list LoopAction) (base : event_base) : event_base :=
  fold_left (fun b a => loop_step a b) acts base.

(** How many times the loop has run the closure of event [e]. *)
Definition times_fired (e : nat) (base : event_base) : nat :=
  length (filter (fun c => fst c = e) (called base)).

(* ===================================================================== *)
(** ** rpcconsole.cpp: the executor of console commands *)
(* ===================================================================== *)

(** The tokenizer function of RPCExecutor::request, a
    boost::escaped_list_separator<char>: the escape is the backslash, the
    separator the space, the quote the double quote. *)
Definition is_escape (c : ascii) : bool := Ascii.eqb c (ascii_of_nat 92).
Definition is_c (c : ascii) : bool := Ascii.eqb c (ascii_of_nat 32).
Definition is_quote (c : ascii) : bool := Ascii.eqb c (ascii_of_nat 34).

(** One pass over the input as the separator's operator() makes it, token
    after token: [tok] is the token being built, [bInQuote] its quote
    state. A separator outside quotes ends the token, and a new one starts
    (the blank last field after a trailing separator included); a quote
    toggles the state and is dropped; after an escape only n, the quote,
    the separator and the escape are allowed (do_escape), anything else and
    the end of the input throw escaped_list_error, a std::runtime_error. *)
Fixpoint escaped_list_scan (s : string) (bInQuote : bool) (tok : string)
  : Outcome (list string) :=
  match s with
  | EmptyString => Ret [tok]
  | String c rest =>
      if is_escape c then
        match rest with
        | EmptyString => Throw (ExStd "cannot end with escape")
        | String d rest' =>
            if Ascii.eqb d "n"%char
            then escaped_list_scan rest' bInQuote (tok +:+ newline)
            else if is_quote d || is_c d || is_escape d
            then escaped_list_scan rest' bInQuote (tok +:+ String d EmptyString)
            else Throw (ExStd "unknown escape sequence")
        end
      else if is_c c then
        if bInQuote
        then escaped_list_scan rest bInQuote (tok +:+ String c EmptyString)
        else toks ← escaped_list_scan rest false EmptyString; Ret (tok :: toks)
      else if is_quote c then escaped_list_scan rest (negb bInQuote) tok
      else escaped_list_scan rest bInQuote (tok +:+ String c EmptyString)
  end.

(** The tokens of a command line; the empty line has none. *)
Definition escaped_list_tokens (s : string) : Outcome (list string) :=
  match s with
  | EmptyString => Ret []
  | String _ _ => escaped_list_scan s false EmptyString
  end.

(** The message categories RPCExecutor and RPCConsole use. *)
Inductive MessageClass : Type := CMD_REQUEST | CMD_REPLY | CMD_ERROR.

(** What the executor does that others see: the call of the registry and
    the reply signal. *)
Inductive ExecutorEvent : Type :=
| ConsoleExecute (strMethod : string) (params : Array)
| SigReply (category : MessageClass) (text : string).

(** The collaborators of the console outside rpcconsole.cpp:
    RPCConvertValues (rpcclient) and json_spirit's pretty writer
    (write_string with pretty = true). *)
Class ConsoleBackend : Type := {
  RPCConvertValues : string -> list string -> Outcome Array;
  write_string_pretty : Value -> string
}.

(** The two catch clauses of RPCExecutor::request. *)
Definition RPCExecutor_caught `{RPCBackend} (e : Exn) : ExecutorEvent :=
  match e with
  | ExObject objError => SigReply CMD_ERROR (write_string (Vobj objError))
  | ExStd what => SigReply CMD_ERROR ("Error: " +:+ what)
  end.

(** The try block of RPCExecutor::request with its handlers, for a method
    and its parameters. *)
Definition RPCExecutor_dispatch `{RPCBackend} `{ConsoleBackend}
    (strMethod : string) (strParams : list string)
  : list ExecutorEvent * Outcome unit :=
  match RPCConvertValues strMethod strParams with
  | Throw e => ([RPCExecutor_caught e], Ret tt)
  | Ret args =>
      match tableRPC_execute strMethod (Varray args) with
      | Throw e => ([ConsoleExecute strMethod args; RPCExecutor_caught e], Ret tt)
      | Ret result =>
          let strPrint :=
            match result with
            | Vnull => EmptyString
            | Vstr s => s
            | _ => write_string_pretty result
            end in
          ([ConsoleExecute strMethod args; SigReply CMD_REPLY strPrint], Ret tt)
      end
  end.

(** RPCExecutor::request. The command line is tokenized before the try
    block: the first token is the method, the others are its parameters;
    with no token the method is the empty string. *)
Definition RPCExecutor_request `{RPCBackend} `{ConsoleBackend} (command : string)
  : list ExecutorEvent * Outcome unit :=
  match escaped_list_tokens command with
  | Throw e => ([], Throw e)
  | Ret tokens => RPCExecutor_dispatch (hd EmptyString tokens) (tl tokens)
  end.

(* ===================================================================== *)
(** ** rpcconsole.cpp: the command line and its history *)
(* ===================================================================== *)

Definition CONSOLE_HISTORY : Z := 50.

(** The part of RPCConsole the history functions touch: the text of the
    line edit, the history and its pointer, the messages shown (category,
    text, html) and the cmdRequest signals emitted. *)
Record RPCConsole : Type := {
  lineEdit : string;
  history : list string;
  historyPtr : Z;
  shown : list (MessageClass * string * bool);
  cmdRequest : list string
}.

(** The constructor: historyPtr(0), an empty history, and clear(), which
    empties the line and shows the (translated) welcome text. *)
Definition RPCConsole_new (welcome : string) : RPCConsole :=
  {| lineEdit := EmptyString; history := []; historyPtr := 0;
     shown := [(CMD_REPLY, welcome, true)]; cmdRequest := [] |}.

(** while (history.size() > CONSOLE_HISTORY) history.removeFirst(). *)
Fixpoint enforce_history_size (h : list string) : list string :=
  match h with
  | [] => []
  | _ :: rest =>
      if CONSOLE_HISTORY <? Z.of_nat (length h)
      then enforce_history_size rest
      else h
  end.

(** on_lineEdit_returnPressed. history.erase(begin + historyPtr, end) keeps
    the first historyPtr entries; the pointer is within the history
    whenever this runs (see [console_invariant]). *)
Definition on_lineEdit_returnPressed (c : RPCConsole) : RPCConsole :=
  let cmd := lineEdit c in
  if empty cmd then
    {| lineEdit := EmptyString; history := history c; historyPtr := historyPtr c;
       shown := shown c; cmdRequest := cmdRequest c |}
  else
    let truncated := take (Z.to_nat (historyPtr c)) (history c) in
    let appended := truncated ++ [cmd] in
    let capped := enforce_history_size appended in
    {| lineEdit := EmptyString;
       history := capped;
       historyPtr := Z.of_nat (length capped);
       shown := shown c ++ [(CMD_REQUEST, cmd, false)];
       cmdRequest := cmdRequest c ++ [cmd] |}.

(** browseHistory. The pointer is an int; it stays between 0 and 50 and
    the offsets are 1 and -1, so the sum is far from the int range. *)
Definition browseHistory (offset : Z) (c : RPCConsole) : RPCConsole :=
  let p := historyPtr c + offset in
  let p := if p <? 0 then 0 else p in
  let size := Z.of_nat (length (history c)) in
  let p := if size <? p then size else p in
  let cmd := if p <? size then nth (Z.to_nat p) (history c) EmptyString
             else EmptyString in
  {| lineEdit := cmd; history := history c; historyPtr := p;
     shown := shown c; cmdRequest := cmdRequest c |}.

(** What the user does at the line edit: typing (the new text), Return,
    and the Up and Down keys, which eventFilter maps to browseHistory(-1)
    and browseHistory(1). *)
Inductive ConsoleAction : Type :=
| TypeText (text : string)
| ReturnPressed
| Key_Up
| Key_Down.

Definition console_step (a : ConsoleAction) (c : RPCConsole) : RPCConsole :=
  match a with
  | TypeText text =>
      {| lineEdit := text; history := history c; historyPtr := historyPtr c;
         shown := shown c; cmdRequest := cmdRequest c |}
  | ReturnPressed => on_lineEdit_returnPressed c
  | Key_Up => browseHistory (-1) c
  | Key_Down => browseHistory 1 c
  end.

Definition console_run (acts : list ConsoleAction) (c : RPCConsole) : RPCConsole :=
  fold_left (fun c a => console_step a c) acts c.

(** The history is at most CONSOLE_HISTORY commands, none of them empty,
    and the pointer is within it (its end included). *)
Definition console_invariant (c : RPCConsole) : Prop :=
  0 <= historyPtr c <= Z.of_nat (length (history c))
  /\ Z.of_nat (length (history c)) <= CONSOLE_HISTORY
  /\ Forall (fun cmd => cmd <> EmptyString) (history c).

(** Typing each command and pressing Return. *)
Definition submit_all (cmds : list string) : list ConsoleAction :=
  flat_map (fun cmd => [TypeText cmd; ReturnPressed]) cmds.

(** Words joined by single spaces; words without escape, separator or
    quote; text without escape or quote. *)
Fixpoint join_words (words : list string) : string :=
  match words with
  | [] => EmptyString
  | [w] => w
  | w :: rest => w +:+ " " +:+ join_words rest
  end.

Fixpoint plain (s : string) : bool :=
  match s with
  | EmptyString => true
  | String c s' => negb (is_escape c || is_c c || is_quote c) && plain s'
  end.

Fixpoint quotable (s : string) : bool :=
  match s with
  | EmptyString => true
  | String c s' => negb (is_escape c || is_quote c) && quotable s'
  end.

Fixpoint no_escape (s : string) : bool :=
  match s with
  | EmptyString => true
  | String c s' => negb (is_escape c) && no_escape s'
  end.

Definition backslash : string := String (ascii_of_nat 92) EmptyString.

(* ===================================================================== *)
(** ** The statements' vocabulary *)
(* ===================================================================== *)

(** Bit [k] of a character flipped, and the same at position [i] of a string. *)
Definition flip_bit (k : nat) (c : ascii) : ascii :=
  ascii_of_N (N.lxor (N_of_ascii c) (N.shiftl 1 (N.of_nat k))).

Fixpoint flip_bit_at (i k : nat) (s : string) : string :=
  match s, i with
  | EmptyString, _ => EmptyString
  | String c s', O => String (flip_bit k c) s'
  | String c s', S i' => String c (flip_bit_at i' k s')
  end.

(** A six-bit group: the two top bits are clear. *)
Definition is_sextet (s : ascii) : bool :=
  match s with
  | Ascii _ _ _ _ _ _ false false => true
  | _ => false
  end.

(** No character of the string is white space. *)
Fixpoint no_space (s : string) : bool :=
  match s with
  | EmptyString => true
  | String c s' => negb (is_space c) && no_space s'
  end.

(** The Authenticator's contract in the words of the spec (section 4.1):
    it fails when the credential store is empty; it fails unless the header
    begins with the literal token "Basic "; otherwise it decodes the
    remainder, trimmed of surrounding white space, and compares the result
    with the stored credential, a decoding failure being a non-match. *)
Definition Authorized_spec (credential rawHeaderValue : string) : bool :=
  if decide (credential = EmptyString) then false
  else if negb (String.prefix "Basic " rawHeaderValue) then false
  else
    match DecodeBase64_checked (trim (drop_chars 6 rawHeaderValue)) with
    | Some decoded => bool_decide (decoded = credential)
    | None => false
    end.

(** What a client can observe of a trace: the headers and the reply written
    to the HTTP response, in order. *)
Definition is_response (ev : Event) : bool :=
  match ev with
  | EvWriteHeader _ _ | EvWriteReply _ _ => true
  | _ => false
  end.

Definition response (t : list Event) : list Event := filter is_response t.

(** The reasons for which authentication of a request fails. *)
Inductive AuthFailure (cred : string) (req : HTTPRequest) : Prop :=
| MissingHeader :
    fst (GetHeader req "authorization") = false ->
    AuthFailure cred req
| EmptyCredentialStore :
    cred = EmptyString ->
    AuthFailure cred req
| MalformedScheme :
    String.prefix "Basic " (snd (GetHeader req "authorization")) = false ->
    AuthFailure cred req
| DecodeFailure (payload : string) :
    snd (GetHeader req "authorization") = "Basic " +:+ payload ->
    DecodeBase64_checked (trim payload) = None ->
    AuthFailure cred req
| MismatchedCredential (payload decoded : string) :
    snd (GetHeader req "authorization") = "Basic " +:+ payload ->
    DecodeBase64_checked (trim payload) = Some decoded ->
    decoded <> cred ->
    AuthFailure cred req.

(** The request is a POST that passes authentication. *)
Definition authenticated_post (cred : string) (req : HTTPRequest) : Prop :=
  GetRequestMethod req = POST
  /\ fst (GetHeader req "authorization") = true
  /\ RPCAuthorized cred (snd (GetHeader req "authorization")) = Ret true.

(** The trace and the result of an error reply: the content type, then the
    reply with the mapped status and the error envelope; the handler
    returns false. *)
Definition error_reply `{RPCBackend} (code : Z) (error : Object) (id : Value)
  : list Event * Outcome bool :=
  ([EvWriteHeader "Content-Type" "application/json";
    EvWriteReply (JSONErrorReply_nStatus code) (JSONRPCReply Vnull (Vobj error) id)],
   Ret false).

(** A thrown JSON-RPC error object carries an integer code, as the objects
    JSONRPCError builds do; a std::exception always has its text. *)
Definition coded (e : Exn) : Prop :=
  match e with
  | ExObject objError => exists code, find_value objError "code" = Vint code
  | ExStd _ => True
  end.

(** The registry throws nothing but coded errors and std::exceptions. *)
Definition registry_throws_coded `{RPCBackend} : Prop :=
  forall method args e, tableRPC_execute method args = Throw e -> coded e.

(** The method registry is called somewhere in the trace. *)
Definition registry_invoked (t : list Event) : Prop :=
  exists method args, In (EvExecute method args) t.

(** The reply (the event and what precedes it) comes after a 250 ms sleep. *)
Definition reply_after_delay (t : list Event) : Prop :=
  exists before nStatus strReply after,
    t = before ++ EvWriteReply nStatus strReply :: after
    /\ In (EvMilliSleep 250) before.

(** The method and parameters of a well-formed single call
    {method: string, params: array|object, id: any}; params may be absent. *)
Definition single_call (request : Object) : option (string * Value) :=
  match find_value request "method" with
  | Vstr m =>
      match find_value request "params" with
      | (Varray _ | Vobj _) as p => Some (m, p)
      | Vnull => Some (m, Varray [])
      | _ => None
      end
  | _ => None
  end.

(** A JSON writer and a registry to run examples with. *)
Definition dquote : string := String (ascii_of_nat 34) EmptyString.

Fixpoint sample_write (v : Value) : string :=
  match v with
  | Vnull => "null"
  | Vbool b => if b then "true" else "false"
  | Vint i => pretty i
  | Vreal bits => "0x" +:+ pretty bits
  | Vstr s => dquote +:+ s +:+ dquote
  | Varray a =>
      "[" +:+
      (fix elements (l : list Value) : string :=
         match l with
         | [] => EmptyString
         | [x] => sample_write x
         | x :: r => sample_write x +:+ "," +:+ elements r
         end) a
      +:+ "]"
  | Vobj o =>
      "{" +:+
      (fix members (l : list (string * Value)) : string :=
         match l with
         | [] => EmptyString
         | [(n, x)] => dquote +:+ n +:+ dquote +:+ ":" +:+ sample_write x
         | (n, x) :: r =>
             dquote +:+ n +:+ dquote +:+ ":" +:+ sample_write x +:+ "," +:+ members r
         end) o
      +:+ "}"
  end.

Definition ping_request : Value :=
  Vobj [("method", Vstr "ping"); ("params", Varray []); ("id", Vint 7)].

(** The reader knows the texts of a few values. *)
Definition sample_read (s : string) : option Value :=
  List.find (fun v => String.eqb (sample_write v) s)
            [ping_request; Vint 1; Varray []].

Definition sample_execute (method : string) (args : Value) : Outcome Value :=
  if String.eqb method "ping" then Ret (Vstr "pong")
  else Throw (ExObject (JSONRPCError RPC_METHOD_NOT_FOUND "Method not found")).

Definition sample_backend (warmup : bool * string) : RPCBackend :=
  {| read_string := sample_read;
     write_string := sample_write;
     tableRPC_execute := sample_execute;
     RPCIsInWarmup := warmup |}.

Definition sample_request (authorization : option string) (body : string) : HTTPRequest :=
  {| GetRequestMethod := POST;
     GetHeader := fun hdr =>
       if String.eqb hdr "authorization"
       then match authorization with
            | Some v => (true, v)
            | None => (false, EmptyString)
            end
       else (false, EmptyString);
     ReadBody := body;
     GetPeer := "127.0.0.1:51234" |}.

(** In a well-formed loop every live event and every recorded call has an
    address below the next free one. *)
Definition wf_base (b : event_base) : Prop :=
  (forall e, is_Some (events b !! e) -> (e < next_event b)%nat)
  /\ (forall e h, In (e, h) (called b) -> (e < next_event b)%nat).

(** 1 when event [e] is live and armed, 0 otherwise. *)
Definition armed_live (e : nat) (b : event_base) : nat :=
  match events b !! e with
  | Some ev => match armed ev with Some _ => 1 | None => 0 end
  | None => 0
  end.

(** The timer's closure has run at most once, and not at all while the
    timer is still armed. *)
Definition one_shot (e : nat) (b : event_base) : Prop :=
  (e < next_event b)%nat /\ (times_fired e b + armed_live e b <= 1)%nat.

(** The timer was destroyed before it fired. *)
Definition canceled (e : nat) (b : event_base) : Prop :=
  (e < next_event b)%nat /\ events b !! e = None /\ times_fired e b = 0%nat.

(** Kinds of events, and strings of white space only. *)
Definition is_reply (ev : Event) : bool :=
  match ev with
  | EvWriteReply _ _ => true
  | _ => false
  end.

Definition is_execute (ev : Event) : bool :=
  match ev with
  | EvExecute _ _ => true
  | _ => false
  end.

Fixpoint all_space (s : string) : bool :=
  match s with
  | EmptyString => true
  | String c s' => is_space c && all_space s'
  end.

(** A string that does not begin with white space. *)
Definition starts_non_space (s : string) : bool :=
  match s with
  | EmptyString => true
  | String c _ => negb (is_space c)
  end.

(** A string that does not end with white space. *)
Fixpoint ends_non_space (s : string) : bool :=
  match s with
  | EmptyString => true
  | String c EmptyString => negb (is_space c)
  | String _ s' => ends_non_space s'
  end.

(** A string with no white space at either end; white space inside it is
    allowed. *)
Definition is_trimmed (s : string) : bool :=
  starts_non_space s && ends_non_space s.

(** A console backend to run examples with: every argument is passed as a
    JSON string. *)
Definition sample_console : ConsoleBackend :=
  {| RPCConvertValues := fun _ strParams => Ret (Vstr <$> strParams);
     write_string_pretty := sample_write |}.

Definition is_sig_reply (ev : ExecutorEvent) : bool :=
  match ev with
  | SigReply _ _ => true
  | ConsoleExecute _ _ => false
  end.

(** The last [n] elements of a list. *)
Definition lastn {A} (n : nat) (l : list A) : list A := drop (length l - n) l.

(* ===================================================================== *)
(** * Properties *)
(* ===================================================================== *)

(** ** Strings *)

Lemma empty_spec (s : string) : empty s = true <-> s = EmptyString.
Proof. destruct s; simpl; split; congruence. Qed.

Lemma append_cons (c : ascii) (s t : string) : String c s +:+ t = String c (s +:+ t).
Proof. reflexivity. Qed.

Lemma append_nil (t : string) : EmptyString +:+ t = t.
Proof. reflexivity. Qed.

Lemma length_append (s t : string) :
  String.length (s +:+ t) = (String.length s + String.length t)%nat.
Proof.
  induction s as [|c s IH]; [reflexivity|].
  rewrite append_cons. simpl. now rewrite IH.
Qed.

Lemma take_chars_append (s t : string) : take_chars (String.length s) (s +:+ t) = s.
Proof.
  induction s as [|c s IH]; [now destruct t|].
  rewrite append_cons. simpl. now rewrite IH.
Qed.

Lemma drop_chars_append (s t : string) : drop_chars (String.length s) (s +:+ t) = t.
Proof.
  induction s as [|c s IH]; [now destruct t|].
  rewrite append_cons. simpl. exact IH.
Qed.

Lemma take_drop_chars (n : nat) (s : string) : take_chars n s +:+ drop_chars n s = s.
Proof.
  revert s; induction n as [|n IH]; intros [|c s]; simpl; try reflexivity.
  rewrite append_cons. f_equal. apply IH.
Qed.

Lemma trim_left_cases (s : string) :
  trim_left s = s \/ (String.length (trim_left s) < String.length s)%nat.
Proof.
  induction s as [|c s IH]; simpl; [now left|].
  destruct (is_space c); [right | now left].
  destruct IH as [-> | IH]; lia.
Qed.

Lemma trim_right_cases (s : string) :
  trim_right s = s \/ (String.length (trim_right s) < String.length s)%nat.
Proof.
  induction s as [|c s IH]; simpl; [now left|].
  destruct (trim_right s) as [|d t] eqn:E.
  - destruct (is_space c); [right; simpl; lia|].
    destruct IH as [<- | IH]; [now left | right; simpl in *; lia].
  - destruct IH as [<- | IH]; [now left | right; simpl in *; lia].
Qed.

Lemma trim_cases (s : string) :
  trim s = s \/ (String.length (trim s) < String.length s)%nat.
Proof.
  unfold trim.
  destruct (trim_right_cases s) as [-> | Hr]; [apply trim_left_cases|].
  right. destruct (trim_left_cases (trim_right s)) as [-> | Hl]; lia.
Qed.

Lemma trim_right_no_space (s : string) : no_space s = true -> trim_right s = s.
Proof.
  induction s as [|c s IH]; simpl; [reflexivity|].
  intros [Hc Hs]%andb_prop. rewrite (IH Hs).
  destruct s; [|reflexivity].
  now destruct (is_space c).
Qed.

Lemma trim_no_space (s : string) : no_space s = true -> trim s = s.
Proof.
  intros H. unfold trim. rewrite (trim_right_no_space s H).
  destruct s as [|c s]; simpl in *; [reflexivity|].
  apply andb_prop in H as [Hc _]. now destruct (is_space c).
Qed.

(** ** Base64: the alphabet *)

Lemma b64_value_char (b0 b1 b2 b3 b4 b5 : bool) :
  b64_value (b64_char (Ascii b0 b1 b2 b3 b4 b5 false false))
  = Some (Ascii b0 b1 b2 b3 b4 b5 false false).
Proof. destruct b0, b1, b2, b3, b4, b5; reflexivity. Qed.

Lemma b64_char_not_pad (b0 b1 b2 b3 b4 b5 : bool) :
  Ascii.eqb (b64_char (Ascii b0 b1 b2 b3 b4 b5 false false)) b64_pad = false.
Proof. destruct b0, b1, b2, b3, b4, b5; reflexivity. Qed.

Lemma b64_char_not_space (b0 b1 b2 b3 b4 b5 : bool) :
  is_space (b64_char (Ascii b0 b1 b2 b3 b4 b5 false false)) = false.
Proof. destruct b0, b1, b2, b3, b4, b5; reflexivity. Qed.

Lemma b64_value_inv (c s : ascii) :
  b64_value c = Some s -> b64_char s = c /\ is_sextet s = true.
Proof.
  destruct c as [[] [] [] [] [] [] [] []]; vm_compute; intros H;
    try discriminate H; injection H as <-; split; reflexivity.
Qed.

Lemma is_sextet_inv (s : ascii) :
  is_sextet s = true ->
  exists b0 b1 b2 b3 b4 b5, s = Ascii b0 b1 b2 b3 b4 b5 false false.
Proof.
  destruct s as [b0 b1 b2 b3 b4 b5 [] []]; simpl; try discriminate.
  intros _. now exists b0, b1, b2, b3, b4, b5.
Qed.

(** ** Base64: decoding inverts encoding *)

Lemma string_ind_by3 (P : string -> Prop) :
  P EmptyString ->
  (forall a, P (String a EmptyString)) ->
  (forall a b, P (String a (String b EmptyString))) ->
  (forall a b c s, P s -> P (String a (String b (String c s)))) ->
  forall s, P s.
Proof.
  intros H0 H1 H2 H3 s.
  assert (H : P s /\ (forall a, P (String a s)) /\ (forall a b, P (String a (String b s)))).
  { induction s as [|c s (IHa & IHb & IHc)]; [now repeat split|].
    split; [apply IHb|]. split; [intros a; apply IHc|].
    intros a b; now apply H3. }
  apply H.
Qed.

Lemma EncodeBase64_empty (s : string) : EncodeBase64 s = EmptyString -> s = EmptyString.
Proof.
  destruct s as [|a [|b [|c s]]]; [reflexivity | | |]; simpl.
  - destruct (b64_split a zero zero) as [[[? ?] ?] ?]; discriminate.
  - destruct (b64_split a b zero) as [[[? ?] ?] ?]; discriminate.
  - destruct (b64_split a b c) as [[[? ?] ?] ?]; discriminate.
Qed.

Lemma DecodeBase64_checked_quad (c0 c1 c2 c3 : ascii) (rest : string) :
  DecodeBase64_checked (String c0 (String c1 (String c2 (String c3 rest)))) =
  match rest with
  | EmptyString => b64_decode_last c0 c1 c2 c3
  | String _ _ =>
      s0 ← b64_value c0; s1 ← b64_value c1; s2 ← b64_value c2; s3 ← b64_value c3;
      t ← DecodeBase64_checked rest;
      let '(a, b, c) := b64_join s0 s1 s2 s3 in
      Some (String a (String b (String c t)))
  end.
Proof. reflexivity. Qed.

Lemma DecodeBase64_checked_Encode (s : string) :
  DecodeBase64_checked (EncodeBase64 s) = Some s.
Proof.
  induction s as [|a|a b|a b c s IH] using string_ind_by3.
  - reflexivity.
  - destruct a as [a0 a1 a2 a3 a4 a5 a6 a7].
    cbn [EncodeBase64 b64_split zero]. rewrite DecodeBase64_checked_quad.
    unfold b64_decode_last. rewrite !Ascii.eqb_refl, !b64_value_char.
    reflexivity.
  - destruct a as [a0 a1 a2 a3 a4 a5 a6 a7], b as [b0 b1 b2 b3 b4 b5 b6 b7].
    cbn [EncodeBase64 b64_split zero]. rewrite DecodeBase64_checked_quad.
    unfold b64_decode_last. rewrite Ascii.eqb_refl, b64_char_not_pad, !b64_value_char.
    reflexivity.
  - destruct a as [a0 a1 a2 a3 a4 a5 a6 a7], b as [b0 b1 b2 b3 b4 b5 b6 b7],
      c as [c0 c1 c2 c3 c4 c5 c6 c7].
    cbn [EncodeBase64 b64_split zero]. rewrite DecodeBase64_checked_quad.
    destruct (EncodeBase64 s) as [|d r] eqn:E.
    + apply EncodeBase64_empty in E as ->.
      unfold b64_decode_last. rewrite b64_char_not_pad, !b64_value_char.
      reflexivity.
    + rewrite !b64_value_char, IH. reflexivity.
Qed.

(** ** Base64: only the encoding of a string decodes to it *)

Ltac b64_values H :=
  repeat match type of H with
  | context [b64_value ?c] =>
      let s := fresh "s" in
      let E := fresh "E" in
      destruct (b64_value c) as [s|] eqn:E; [|discriminate H];
      apply b64_value_inv in E as [<- (? & ? & ? & ? & ? & ? & ->)%is_sextet_inv]
  end.

Lemma b64_decode_last_inv (c0 c1 c2 c3 : ascii) (t : string) :
  b64_decode_last c0 c1 c2 c3 = Some t ->
  EncodeBase64 t = String c0 (String c1 (String c2 (String c3 EmptyString))).
Proof.
  unfold b64_decode_last. intros H.
  destruct (Ascii.eqb c3 b64_pad) eqn:E3;
    [apply Ascii.eqb_eq in E3 as ->; destruct (Ascii.eqb c2 b64_pad) eqn:E2;
       [apply Ascii.eqb_eq in E2 as ->|]|].
  - b64_values H. cbn [mbind option_bind b64_join zero] in H.
    match type of H with
    | context [Ascii.eqb (Ascii _ _ _ _ ?q0 ?q1 ?q2 ?q3) _] =>
        destruct q0, q1, q2, q3; try discriminate H
    end.
    injection H as <-. reflexivity.
  - b64_values H. cbn [mbind option_bind b64_join zero] in H.
    match type of H with
    | context [Ascii.eqb (Ascii _ _ _ _ _ _ ?r0 ?r1) _] =>
        destruct r0, r1; try discriminate H
    end.
    injection H as <-. reflexivity.
  - b64_values H. cbn [mbind option_bind b64_join] in H.
    injection H as <-. reflexivity.
Qed.

Lemma string_ind_by4 (P : string -> Prop) :
  P EmptyString ->
  (forall a, P (String a EmptyString)) ->
  (forall a b, P (String a (String b EmptyString))) ->
  (forall a b c, P (String a (String b (String c EmptyString)))) ->
  (forall a b c d s, P s -> P (String a (String b (String c (String d s))))) ->
  forall s, P s.
Proof.
  intros H0 H1 H2 H3 H4 s.
  assert (H : P s /\ (forall a, P (String a s)) /\ (forall a b, P (String a (String b s)))
              /\ (forall a b c, P (String a (String b (String c s))))).
  { induction s as [|d s (IHa & IHb & IHc & IHd)]; [now repeat split|].
    split; [apply IHb|]. split; [intros a; apply IHc|].
    split; [intros a b; apply IHd|]. intros a b c; now apply H4. }
  apply H.
Qed.

Lemma DecodeBase64_checked_inv (s t : string) :
  DecodeBase64_checked s = Some t -> EncodeBase64 t = s.
Proof.
  revert t. induction s as [|a|a b|a b c|c0 c1 c2 c3 rest IH] using string_ind_by4;
    intros t H; try discriminate H.
  - now injection H as <-.
  - rewrite DecodeBase64_checked_quad in H. destruct rest as [|d r].
    + now apply b64_decode_last_inv.
    + b64_values H. cbn [mbind option_bind] in H.
      destruct (DecodeBase64_checked (String d r)) as [t'|] eqn:Et; [|discriminate H].
      cbn [mbind option_bind b64_join] in H. injection H as <-.
      cbn [EncodeBase64 b64_split]. now rewrite (IH t' eq_refl).
Qed.

Lemma EncodeBase64_inj (s t : string) : EncodeBase64 s = EncodeBase64 t -> s = t.
Proof.
  intros H. apply (f_equal DecodeBase64_checked) in H.
  rewrite !DecodeBase64_checked_Encode in H. congruence.
Qed.

Lemma DecodeBase64_Encode (s : string) : DecodeBase64 (EncodeBase64 s) = s.
Proof. unfold DecodeBase64. now rewrite DecodeBase64_checked_Encode. Qed.

Lemma EncodeBase64_no_space (s : string) : no_space (EncodeBase64 s) = true.
Proof.
  induction s as [|a|a b|a b c s IH] using string_ind_by3.
  - reflexivity.
  - destruct a as [a0 a1 a2 a3 a4 a5 a6 a7].
    cbn [EncodeBase64 b64_split zero no_space]. now rewrite !b64_char_not_space.
  - destruct a as [a0 a1 a2 a3 a4 a5 a6 a7], b as [b0 b1 b2 b3 b4 b5 b6 b7].
    cbn [EncodeBase64 b64_split zero no_space]. now rewrite !b64_char_not_space.
  - destruct a as [a0 a1 a2 a3 a4 a5 a6 a7], b as [b0 b1 b2 b3 b4 b5 b6 b7],
      c as [c0 c1 c2 c3 c4 c5 c6 c7].
    cbn [EncodeBase64 b64_split no_space]. now rewrite !b64_char_not_space, IH.
Qed.

(** ** TimingResistantEqual decides equality *)

Lemma char_code_inj (c d : ascii) : char_code c = char_code d -> c = d.
Proof.
  unfold char_code. intros H%N2Z.inj.
  rewrite <- (ascii_N_embedding c), <- (ascii_N_embedding d). now rewrite H.
Qed.

Lemma fold_lor_zero (f : nat -> Z) (l : list nat) (acc : Z) :
  fold_left (fun a i => Z.lor a (f i)) l acc = 0 <->
  acc = 0 /\ Forall (fun i => f i = 0) l.
Proof.
  revert acc. induction l as [|i l IH]; intros acc; simpl.
  - split; [intros ->; split; [reflexivity | constructor] | now intros [-> _]].
  - rewrite IH, Z.lor_eq_0_iff. split.
    + intros [[-> Hi] Hl]. split; [reflexivity | now constructor].
    + intros [-> H]. inversion_clear H. now repeat split.
Qed.

Lemma string_eq_by_chars (a b : string) :
  String.length a = String.length b ->
  (forall i, (i < String.length a)%nat -> char_at a i = char_at b i) ->
  a = b.
Proof.
  revert b. induction a as [|c a IH]; intros [|d b] Hlen H; try discriminate Hlen.
  - reflexivity.
  - simpl in Hlen. f_equal.
    + apply char_code_inj. apply (H 0%nat). simpl; lia.
    + apply IH; [lia|]. intros i Hi. apply (H (S i)). simpl; lia.
Qed.

Lemma TimingResistantEqual_true (a b : string) :
  TimingResistantEqual a b = true <-> a = b.
Proof.
  unfold TimingResistantEqual.
  destruct (String.length b =? 0)%nat eqn:Eb.
  - apply Nat.eqb_eq in Eb. destruct b; [|discriminate Eb].
    rewrite Nat.eqb_eq. destruct a; simpl; split; congruence.
  - apply Nat.eqb_neq in Eb.
    rewrite Z.eqb_eq, fold_lor_zero, Z.lxor_eq_0_iff, Forall_forall. split.
    + intros [Hlen%Nat2Z.inj H]. apply string_eq_by_chars; [exact Hlen|].
      intros i Hi. specialize (H i). rewrite Z.lxor_eq_0_iff in H.
      rewrite H; [|apply elem_of_seq; lia].
      rewrite <- Hlen, Nat.mod_small by exact Hi. reflexivity.
    + intros ->. split; [reflexivity|]. intros i Hi%elem_of_seq.
      rewrite Z.lxor_eq_0_iff, Nat.mod_small by lia. reflexivity.
Qed.

Lemma TimingResistantEqual_refl (a : string) : TimingResistantEqual a a = true.
Proof. now apply TimingResistantEqual_true. Qed.

Lemma TimingResistantEqual_neq (a b : string) :
  a <> b -> TimingResistantEqual a b = false.
Proof.
  intros H. destruct (TimingResistantEqual a b) eqn:E; [|reflexivity].
  now apply TimingResistantEqual_true in E.
Qed.

(** ** A flipped bit changes the string and keeps its length *)

Lemma flip_bit_neq (k : nat) (c : ascii) : (k < 8)%nat -> flip_bit k c <> c.
Proof.
  intros Hk.
  do 8 (destruct k as [|k]; [destruct c as [[] [] [] [] [] [] [] []]; discriminate|]).
  lia.
Qed.

Lemma flip_bit_at_length (i k : nat) (s : string) :
  String.length (flip_bit_at i k s) = String.length s.
Proof.
  revert i. induction s as [|c s IH]; intros [|i]; simpl; auto.
Qed.

Lemma flip_bit_at_neq (i k : nat) (s : string) :
  (i < String.length s)%nat -> (k < 8)%nat -> flip_bit_at i k s <> s.
Proof.
  revert i. induction s as [|c s IH]; intros i Hi Hk; simpl in Hi; [lia|].
  destruct i as [|i]; simpl; intros H; injection H.
  - now apply flip_bit_neq.
  - apply IH; [lia | exact Hk].
Qed.

(** ** Base64 and RPCAuthorized on examples *)

Example EncodeBase64_user_pass : EncodeBase64 "user:pass" = "dXNlcjpwYXNz".
Proof. reflexivity. Qed.

Example EncodeBase64_colon : EncodeBase64 ":" = "Og==".
Proof. reflexivity. Qed.

Example DecodeBase64_colon : DecodeBase64 "Og==" = ":".
Proof. reflexivity. Qed.

Example DecodeBase64_spare_bits : DecodeBase64_checked "Oo==" = None.
Proof. reflexivity. Qed.

Example RPCAuthorized_ok : RPCAuthorized "user:pass" "Basic dXNlcjpwYXNz  " = Ret true.
Proof. reflexivity. Qed.

Example RPCAuthorized_short : RPCAuthorized "user:pass" "Bas" = Ret false.
Proof. reflexivity. Qed.

(** ** RPCAuthorized *)

Lemma prefix_take_chars (p h : string) :
  String.prefix p h = String.eqb (take_chars (String.length p) h) p.
Proof.
  revert h. induction p as [|a p IH]; intros h; [now destruct h|].
  destruct h as [|b h]; [reflexivity|]. simpl.
  destruct (ascii_dec a b) as [->|Hne].
  - now rewrite Ascii.eqb_refl.
  - destruct (Ascii.eqb_spec b a) as [->|_]; [now destruct Hne | reflexivity].
Qed.

Lemma take_chars_length (n : nat) (s : string) :
  String.length (take_chars n s) = Nat.min n (String.length s).
Proof.
  revert s. induction n as [|n IH]; intros [|c s]; simpl; auto.
Qed.

Lemma prefix_length (p h : string) :
  String.prefix p h = true -> (String.length p <= String.length h)%nat.
Proof.
  rewrite prefix_take_chars. intros H%String.eqb_eq.
  apply (f_equal String.length) in H. rewrite take_chars_length in H. lia.
Qed.

Lemma prefix_append (p t : string) : String.prefix p (p +:+ t) = true.
Proof.
  rewrite prefix_take_chars, take_chars_append. apply String.eqb_refl.
Qed.

Lemma substr_prefix (h : string) (n : nat) :
  substr h 0 (Some n) = Ret (take_chars n h).
Proof. reflexivity. Qed.

Lemma substr_from (h : string) (n : nat) :
  (n <= String.length h)%nat -> substr h n None = Ret (drop_chars n h).
Proof.
  intros Hn. unfold substr.
  destruct (Nat.ltb_spec (String.length h) n) as [Hlt|_]; [lia | reflexivity].
Qed.

Lemma Outcome_bind_Ret {A B} (a : A) (f : A -> Outcome B) : (Ret a ≫= f) = f a.
Proof. reflexivity. Qed.

(** RPCAuthorized never throws and computes the spec's Authenticator. *)
Lemma RPCAuthorized_refines (cred h : string) :
  RPCAuthorized cred h = Ret (Authorized_spec cred h).
Proof.
  unfold RPCAuthorized, Authorized_spec.
  destruct (empty cred) eqn:Ec.
  - apply empty_spec in Ec as ->. reflexivity.
  - destruct (decide (cred = EmptyString)) as [->|Hne]; [discriminate Ec|].
    rewrite substr_prefix, Outcome_bind_Ret.
    pose proof (prefix_take_chars "Basic " h) as Hp.
    change (String.length "Basic ") with 6%nat in Hp. rewrite <- Hp. clear Hp.
    destruct (String.prefix "Basic " h) eqn:Ep; cbn [negb]; [|reflexivity].
    apply prefix_length in Ep. change (String.length "Basic ") with 6%nat in Ep.
    rewrite (substr_from h 6 Ep), Outcome_bind_Ret. f_equal. unfold DecodeBase64.
    destruct (DecodeBase64_checked (trim (drop_chars 6 h))) as [d|].
    + destruct (decide (d = cred)) as [->|Hd].
      * now rewrite TimingResistantEqual_refl, bool_decide_eq_true_2.
      * now rewrite TimingResistantEqual_neq, bool_decide_eq_false_2.
    + apply TimingResistantEqual_neq. congruence.
Qed.

Lemma Authorized_spec_Basic (cred rest : string) :
  cred <> EmptyString ->
  Authorized_spec cred ("Basic " +:+ rest) =
  match DecodeBase64_checked (trim rest) with
  | Some decoded => bool_decide (decoded = cred)
  | None => false
  end.
Proof.
  intros Hne. unfold Authorized_spec.
  destruct (decide (cred = EmptyString)) as [?|_]; [contradiction|].
  rewrite prefix_append. cbn [negb].
  pose proof (drop_chars_append "Basic " rest) as Hd.
  change (String.length "Basic ") with 6%nat in Hd. now rewrite Hd.
Qed.

Lemma all_space_head (c : ascii) (s : string) :
  all_space (String c s) = true -> is_space c = true /\ all_space s = true.
Proof. simpl. now intros [? ?]%andb_prop. Qed.

Lemma trim_left_lead (ws s : string) :
  all_space ws = true -> trim_left (ws +:+ s) = trim_left s.
Proof.
  induction ws as [|c ws IH]; [reflexivity|].
  intros [Hc Hws]%all_space_head. rewrite append_cons. simpl. rewrite Hc. now apply IH.
Qed.

Lemma trim_right_all_space (ws : string) :
  all_space ws = true -> trim_right ws = EmptyString.
Proof.
  induction ws as [|c ws IH]; [reflexivity|].
  intros [Hc Hws]%all_space_head. simpl. now rewrite (IH Hws), Hc.
Qed.

Lemma trim_right_trail (s ws : string) :
  all_space ws = true -> trim_right (s +:+ ws) = trim_right s.
Proof.
  intros Hws. induction s as [|c s IH].
  - rewrite append_nil. now apply trim_right_all_space.
  - rewrite append_cons. simpl. now rewrite IH.
Qed.

Lemma trim_right_lead (ws s : string) :
  all_space ws = true ->
  trim_right (ws +:+ s)
  = match trim_right s with
    | EmptyString => EmptyString
    | t => ws +:+ t
    end.
Proof.
  induction ws as [|c ws IH]; intros Hws.
  - rewrite append_nil. now destruct (trim_right s).
  - apply all_space_head in Hws as [Hc Hws]. rewrite append_cons. simpl.
    rewrite (IH Hws). destruct (trim_right s) as [|d t].
    + now rewrite Hc.
    + destruct ws; reflexivity.
Qed.

Lemma append_assoc (a b c : string) : (a +:+ b) +:+ c = a +:+ (b +:+ c).
Proof.
  induction a as [|x a IH]; [reflexivity|].
  rewrite !append_cons. now rewrite IH.
Qed.

Lemma trim_surrounded (ws1 s ws2 : string) :
  all_space ws1 = true -> all_space ws2 = true ->
  trim (ws1 +:+ s +:+ ws2) = trim s.
Proof.
  intros H1 H2. unfold trim.
  rewrite <- append_assoc, (trim_right_trail _ ws2 H2), (trim_right_lead ws1 s H1).
  destruct (trim_right s) as [|d t]; [reflexivity|].
  now apply trim_left_lead.
Qed.

Lemma trim_left_fixed (s : string) :
  starts_non_space s = true -> trim_left s = s.
Proof. destruct s as [|c s]; [reflexivity|]. simpl. now destruct (is_space c). Qed.

Lemma trim_right_fixed (s : string) :
  ends_non_space s = true -> trim_right s = s.
Proof.
  induction s as [|c s IH]; [reflexivity|].
  destruct s as [|d s].
  - simpl. now destruct (is_space c).
  - intros H. change (ends_non_space (String d s) = true) in H.
    change (trim_right (String c (String d s)))
      with (match trim_right (String d s) with
            | EmptyString => if is_space c then EmptyString else String c EmptyString
            | t => String c t
            end).
    now rewrite (IH H).
Qed.

Lemma trim_fixed (s : string) : is_trimmed s = true -> trim s = s.
Proof.
  unfold is_trimmed, trim. intros [Hl Hr]%andb_prop.
  rewrite (trim_right_fixed s Hr). now apply trim_left_fixed.
Qed.

Lemma trim_left_split (s : string) :
  exists ws, all_space ws = true /\ s = ws +:+ trim_left s.
Proof.
  induction s as [|c s (ws & Hws & IH)]; [now exists EmptyString|].
  simpl. destruct (is_space c) eqn:Hc.
  - exists (String c ws). split; [simpl; now rewrite Hc|].
    rewrite append_cons. now f_equal.
  - now exists EmptyString.
Qed.

Lemma trim_left_starts (s : string) : starts_non_space (trim_left s) = true.
Proof.
  induction s as [|c s IH]; [reflexivity|].
  simpl. destruct (is_space c) eqn:Hc; [exact IH|]. simpl. now rewrite Hc.
Qed.

Lemma trim_right_split (s : string) :
  exists ws, all_space ws = true /\ s = trim_right s +:+ ws.
Proof.
  induction s as [|c s (ws & Hws & IH)]; [now exists EmptyString|].
  simpl. destruct (trim_right s) as [|d t].
  - rewrite append_nil in IH. subst s. destruct (is_space c) eqn:Hc.
    + exists (String c ws). split; [simpl; now rewrite Hc | now rewrite append_nil].
    + exists ws. split; [exact Hws|]. now rewrite append_cons, append_nil.
  - exists ws. split; [exact Hws|]. rewrite append_cons. now f_equal.
Qed.

Lemma trim_right_ends (s : string) : ends_non_space (trim_right s) = true.
Proof.
  induction s as [|c s IH]; [reflexivity|].
  simpl. destruct (trim_right s) as [|d t].
  - destruct (is_space c) eqn:Hc; [reflexivity|]. simpl. now rewrite Hc.
  - exact IH.
Qed.

Lemma trim_left_ends (s : string) :
  ends_non_space s = true -> ends_non_space (trim_left s) = true.
Proof.
  induction s as [|c s IH]; [reflexivity|].
  intros H. simpl. destruct (is_space c); [|exact H].
  apply IH. destruct s; [reflexivity | exact H].
Qed.

Lemma trim_is_trimmed (s : string) : is_trimmed (trim s) = true.
Proof.
  unfold is_trimmed, trim. apply andb_true_intro. split.
  - apply trim_left_starts.
  - apply trim_left_ends, trim_right_ends.
Qed.

Lemma trim_split (s : string) :
  exists ws1 ws2,
    all_space ws1 = true /\ all_space ws2 = true
    /\ s = ws1 +:+ trim s +:+ ws2.
Proof.
  destruct (trim_right_split s) as (ws2 & H2 & Hr).
  destruct (trim_left_split (trim_right s)) as (ws1 & H1 & Hl).
  exists ws1, ws2. split; [exact H1|]. split; [exact H2|].
  unfold trim. rewrite <- append_assoc, <- Hl. exact Hr.
Qed.

Lemma trim_of_parts (ws1 core ws2 : string) :
  all_space ws1 = true -> all_space ws2 = true -> is_trimmed core = true ->
  trim (ws1 +:+ core +:+ ws2) = core.
Proof.
  intros H1 H2 Hc. rewrite (trim_surrounded ws1 core ws2 H1 H2).
  now apply trim_fixed.
Qed.

(** C3. RPCAuthorized returns false when the stored credential is empty and
    when the header does not begin with the case-sensitive token "Basic ";
    otherwise it trims the remainder, base64-decodes it and returns whether
    the decoding equals the stored credential; a decoding failure is a
    non-match. It returns on every input (it never throws), and its result
    is the one the spec's Authenticator describes. Trimming removes the
    white space at both ends of the remainder and nothing else: every
    remainder is a run of white space, its trimmed form, and a run of white
    space, the trimmed form has white space at neither end, and a remainder
    built from a core with white space at neither end and white space
    around it is decoded as that core. *)
Theorem RPCAuthorized_contract (cred h : string) :
  (exists b, RPCAuthorized cred h = Ret b)
  /\ RPCAuthorized cred h = Ret (Authorized_spec cred h)
  /\ RPCAuthorized EmptyString h = Ret false
  /\ (String.prefix "Basic " h = false -> RPCAuthorized cred h = Ret false)
  /\ RPCAuthorized cred ("basic " +:+ h) = Ret false
  /\ RPCAuthorized cred ("BASIC " +:+ h) = Ret false
  /\ (cred <> EmptyString ->
      DecodeBase64_checked (trim h) = None ->
      RPCAuthorized cred ("Basic " +:+ h) = Ret false)
  /\ (cred <> EmptyString ->
      forall decoded, DecodeBase64_checked (trim h) = Some decoded ->
      RPCAuthorized cred ("Basic " +:+ h) = Ret (bool_decide (decoded = cred)))
  /\ (exists ws1 ws2,
        all_space ws1 = true /\ all_space ws2 = true
        /\ h = ws1 +:+ trim h +:+ ws2)
  /\ is_trimmed (trim h) = true
  /\ (forall ws1 core ws2,
        all_space ws1 = true -> all_space ws2 = true -> is_trimmed core = true ->
        trim (ws1 +:+ core +:+ ws2) = core
        /\ (cred <> EmptyString ->
            RPCAuthorized cred ("Basic " +:+ ws1 +:+ core +:+ ws2)
            = Ret (match DecodeBase64_checked core with
                   | Some decoded => bool_decide (decoded = cred)
                   | None => false
                   end))).
Proof.
  rewrite !RPCAuthorized_refines.
  split; [eauto|]. split; [reflexivity|].
  split; [unfold Authorized_spec; now destruct (decide (EmptyString = EmptyString))|].
  split.
  { intros Hp. unfold Authorized_spec. rewrite Hp.
    now destruct (decide (cred = EmptyString)). }
  split; [unfold Authorized_spec; now destruct (decide (cred = EmptyString))|].
  split; [unfold Authorized_spec; now destruct (decide (cred = EmptyString))|].
  split; [intros Hne Hd; now rewrite Authorized_spec_Basic, Hd|].
  split; [intros Hne d Hd; now rewrite Authorized_spec_Basic, Hd|].
  split; [apply trim_split|].
  split; [apply trim_is_trimmed|].
  intros ws1 core ws2 H1 H2 Hcore.
  split; [now apply trim_of_parts|].
  intros Hne. rewrite RPCAuthorized_refines, Authorized_spec_Basic by exact Hne.
  now rewrite (trim_of_parts ws1 core ws2 H1 H2 Hcore).
Qed.

Lemma RPCAuthorized_contract_witness :
  RPCAuthorized "user:pass" "Digest dXNlcjpwYXNz" = Ret false
  /\ RPCAuthorized "user:pass" "Basic dXNlcjpwYXN" = Ret false
  /\ RPCAuthorized "user:pass" "Basic dXNlcjpwYXNz" = Ret true
  /\ trim (" " +:+ "dXNl cjpw" +:+ newline) = "dXNl cjpw"
  /\ RPCAuthorized "user:pass" ("Basic " +:+ "  " +:+ "dXNlcjpwYXNz" +:+ newline)
     = Ret true
  /\ RPCAuthorized "user:pass" ("Basic " +:+ " " +:+ "dXNl cjpwYXNz" +:+ " ")
     = Ret false.
Proof.
  destruct (RPCAuthorized_contract "user:pass" "Digest dXNlcjpwYXNz")
    as (_ & _ & _ & Hscheme & _).
  destruct (RPCAuthorized_contract "user:pass" "dXNlcjpwYXN")
    as (_ & _ & _ & _ & _ & _ & Hfail & _).
  destruct (RPCAuthorized_contract "user:pass" "dXNlcjpwYXNz")
    as (_ & _ & _ & _ & _ & _ & _ & Hok & _ & _ & Hparts).
  split; [apply Hscheme; reflexivity|].
  split; [apply Hfail; [discriminate | reflexivity]|].
  split; [apply (Hok ltac:(discriminate) "user:pass"); reflexivity|].
  split; [apply (Hparts " " "dXNl cjpw" newline); reflexivity|].
  split.
  - apply (Hparts "  " "dXNlcjpwYXNz" newline); [reflexivity .. | discriminate].
  - apply (Hparts " " "dXNl cjpwYXNz" " "); [reflexivity .. | discriminate].
Defined.

Lemma append_not_empty (user secret : string) :
  user +:+ ":" +:+ secret <> EmptyString.
Proof. destruct user; discriminate. Qed.

(** C1. With the credential user:secret stored, the header "Basic "
    followed by the base64 encoding of exactly that string is authorized,
    and flipping any one bit of the encoded portion makes RPCAuthorized
    return false. *)
Theorem RPCAuthorized_exact_pair_only (user secret : string) (i k : nat) :
  let cred := user +:+ ":" +:+ secret in
  (i < String.length (EncodeBase64 cred))%nat ->
  (k < 8)%nat ->
  RPCAuthorized cred ("Basic " +:+ EncodeBase64 cred) = Ret true
  /\ RPCAuthorized cred ("Basic " +:+ flip_bit_at i k (EncodeBase64 cred)) = Ret false.
Proof.
  intros cred Hi Hk.
  pose proof (append_not_empty user secret) as Hne. fold cred in Hne.
  rewrite !RPCAuthorized_refines, !Authorized_spec_Basic by exact Hne. split.
  - rewrite trim_no_space by apply EncodeBase64_no_space.
    now rewrite DecodeBase64_checked_Encode, bool_decide_eq_true_2.
  - destruct (DecodeBase64_checked (trim (flip_bit_at i k (EncodeBase64 cred))))
      as [d|] eqn:Ed; [|reflexivity].
    f_equal. apply bool_decide_eq_false_2. intros ->.
    apply DecodeBase64_checked_inv in Ed.
    destruct (trim_cases (flip_bit_at i k (EncodeBase64 cred))) as [Ht|Ht].
    + rewrite Ht in Ed. symmetry in Ed. now apply flip_bit_at_neq in Ed.
    + rewrite <- Ed, flip_bit_at_length in Ht. lia.
Qed.

Lemma RPCAuthorized_exact_pair_only_witness :
  RPCAuthorized "user:pass" "Basic dXNlcjpwYXNz" = Ret true
  /\ RPCAuthorized "user:pass" "Basic dXNlcjpwYXNr" = Ret false.
Proof.
  apply (RPCAuthorized_exact_pair_only "user" "pass" 11 3); vm_compute; lia.
Defined.

(** ** Examples *)

Example sample_write_ping :
  sample_write ping_request =
  "{" +:+ dquote +:+ "method" +:+ dquote +:+ ":" +:+ dquote +:+ "ping" +:+ dquote
  +:+ "," +:+ dquote +:+ "params" +:+ dquote +:+ ":[],"
  +:+ dquote +:+ "id" +:+ dquote +:+ ":7}".
Proof. vm_compute. reflexivity. Qed.

(** The spec's scenario: ping with valid credentials is answered with 200
    and the envelope {result: "pong", error: null, id: 7}. *)
Example ping_scenario :
  run (HTTPReq_JSONRPC (H := sample_backend (false, EmptyString)) "user:pass"
         (sample_request (Some "Basic dXNlcjpwYXNz") (sample_write ping_request)))
  = ([EvExecute "ping" (Varray []);
      EvWriteHeader "Content-Type" "application/json";
      EvWriteReply 200
        (sample_write (Vobj [("result", Vstr "pong"); ("error", Vnull); ("id", Vint 7)]))],
     Ret true).
Proof. vm_compute. reflexivity. Qed.

(** ** HTTPReq_JSONRPC: the three ways past the method check *)

Section Handler.
Context `{RPCBackend}.
Variables (cred : string) (req : HTTPRequest).
Hypothesis Hpost : GetRequestMethod req = POST.

Lemma HTTPReq_JSONRPC_no_header :
  fst (GetHeader req "authorization") = false ->
  run (HTTPReq_JSONRPC cred req)
  = ([EvWriteReply HTTP_UNAUTHORIZED EmptyString], Ret false).
Proof.
  intros Hh. unfold HTTPReq_JSONRPC. rewrite Hpost, Hh. reflexivity.
Qed.

Lemma HTTPReq_JSONRPC_rejected :
  fst (GetHeader req "authorization") = true ->
  RPCAuthorized cred (snd (GetHeader req "authorization")) = Ret false ->
  run (HTTPReq_JSONRPC cred req)
  = ([EvLogPrintf ("ThreadRPCServer incorrect password attempt from "
                   +:+ GetPeer req +:+ newline);
      EvMilliSleep 250;
      EvWriteReply HTTP_UNAUTHORIZED EmptyString], Ret false).
Proof.
  intros Hh Ha. unfold HTTPReq_JSONRPC. rewrite Hpost, Hh, Ha. reflexivity.
Qed.

Lemma HTTPReq_JSONRPC_accepted :
  fst (GetHeader req "authorization") = true ->
  RPCAuthorized cred (snd (GetHeader req "authorization")) = Ret true ->
  run (HTTPReq_JSONRPC cred req)
  = run (try_catch
           (HTTPReq_JSONRPC_body req;; mret true)
           (fun e =>
              jreq ← get_jreq;
              match e with
              | ExObject objError =>
                  JSONErrorReply objError (id jreq);; mret false
              | ExStd what =>
                  JSONErrorReply (JSONRPCError RPC_PARSE_ERROR what) (id jreq);;
                  mret false
              end)).
Proof.
  intros Hh Ha. unfold HTTPReq_JSONRPC. rewrite Hpost, Hh, Ha.
  set (protected := try_catch _ _).
  unfold run, mbind, Eff_bind, lift, put_jreq. cbn [negb app].
  now destruct (protected JSONRequest_new) as [[t j] r].
Qed.

Lemma AuthFailure_not_authorized :
  AuthFailure cred req ->
  fst (GetHeader req "authorization") = false
  \/ RPCAuthorized cred (snd (GetHeader req "authorization")) = Ret false.
Proof.
  intros Hf. rewrite RPCAuthorized_refines.
  destruct Hf as [Hh | -> | Hp | payload Hv Hd | payload decoded Hv Hd Hm].
  - now left.
  - right. reflexivity.
  - right. unfold Authorized_spec. rewrite Hp.
    now destruct (decide (cred = EmptyString)).
  - right. rewrite Hv. destruct (decide (cred = EmptyString)) as [->|Hne];
      [reflexivity | now rewrite Authorized_spec_Basic, Hd].
  - right. rewrite Hv. destruct (decide (cred = EmptyString)) as [->|Hne];
      [reflexivity|].
    now rewrite Authorized_spec_Basic, Hd, bool_decide_eq_false_2.
Qed.
End Handler.

(** C2. Whatever makes authentication of a POST request fail (no
    Authorization header, a scheme token other than "Basic ", a payload
    that does not decode, a decoded credential that differs, or an empty
    credential store), the client observes the same response: a single
    reply with status 401 and an empty body, and no header. *)
Theorem auth_failures_look_alike `{RPCBackend} (cred : string) (req : HTTPRequest) :
  GetRequestMethod req = POST ->
  AuthFailure cred req ->
  response (fst (run (HTTPReq_JSONRPC cred req)))
  = [EvWriteReply HTTP_UNAUTHORIZED EmptyString]
  /\ snd (run (HTTPReq_JSONRPC cred req)) = Ret false.
Proof.
  intros Hpost Hf.
  destruct (fst (GetHeader req "authorization")) eqn:Hh.
  - destruct (AuthFailure_not_authorized cred req Hf) as [Hn|Ha]; [congruence|].
    rewrite (HTTPReq_JSONRPC_rejected cred req Hpost Hh Ha). now split.
  - rewrite (HTTPReq_JSONRPC_no_header cred req Hpost Hh). now split.
Qed.

Lemma auth_failures_look_alike_witness :
  let backend := sample_backend (false, EmptyString) in
  let observed (authorization : option string) :=
    response (fst (run (HTTPReq_JSONRPC "user:pass"
                          (sample_request authorization "[]")))) in
  observed None = [EvWriteReply 401 EmptyString]
  /\ observed (Some "Digest dXNlcjpwYXNz") = [EvWriteReply 401 EmptyString]
  /\ observed (Some "Basic dXNlcjpwYXN") = [EvWriteReply 401 EmptyString]
  /\ observed (Some "Basic dXNlcjpwYXNy") = [EvWriteReply 401 EmptyString].
Proof.
  intros backend observed.
  split; [|split; [|split]].
  - apply (auth_failures_look_alike "user:pass" (sample_request None "[]"));
      [reflexivity | now apply MissingHeader].
  - apply (auth_failures_look_alike "user:pass"
             (sample_request (Some "Digest dXNlcjpwYXNz") "[]"));
      [reflexivity | now apply MalformedScheme].
  - apply (auth_failures_look_alike "user:pass"
             (sample_request (Some "Basic dXNlcjpwYXN") "[]"));
      [reflexivity | now apply (DecodeFailure _ _ "dXNlcjpwYXN")].
  - apply (auth_failures_look_alike "user:pass"
             (sample_request (Some "Basic dXNlcjpwYXNy") "[]"));
      [reflexivity | now apply (MismatchedCredential _ _ "dXNlcjpwYXNy" "user:pasr")].
Defined.

(** C4, as the claim states it, fails: a POST without an Authorization
    header fails authentication, and its 401 is written at once; the trace
    holds no sleep and no log line. *)
Lemma missing_header_not_delayed :
  let backend := sample_backend (false, EmptyString) in
  let req := sample_request None "[]" in
  AuthFailure "user:pass" req
  /\ run (HTTPReq_JSONRPC "user:pass" req) = ([EvWriteReply 401 EmptyString], Ret false)
  /\ ~ reply_after_delay (fst (run (HTTPReq_JSONRPC "user:pass" req))).
Proof.
  intros backend req. split; [now apply MissingHeader|]. split; [reflexivity|].
  intros (before & nStatus & strReply & after & Ht & Hin).
  change (fst (run (HTTPReq_JSONRPC "user:pass" req)))
    with [EvWriteReply 401 EmptyString] in Ht.
  destruct before as [|ev [|ev' before]]; [destruct Hin | discriminate Ht..].
Qed.

(** C4, amended. A POST request that carries an Authorization header and
    fails authentication is logged with the peer's address, then delayed by
    250 ms, and only then answered with 401: the trace is exactly log,
    sleep, reply. A POST request without an Authorization header is
    answered with 401 and nothing else happens. *)
Theorem failed_credentials_are_delayed `{RPCBackend} (cred : string) (req : HTTPRequest) :
  GetRequestMethod req = POST ->
  AuthFailure cred req ->
  (fst (GetHeader req "authorization") = true ->
   run (HTTPReq_JSONRPC cred req)
   = ([EvLogPrintf ("ThreadRPCServer incorrect password attempt from "
                    +:+ GetPeer req +:+ newline);
       EvMilliSleep 250;
       EvWriteReply HTTP_UNAUTHORIZED EmptyString], Ret false)
   /\ reply_after_delay (fst (run (HTTPReq_JSONRPC cred req))))
  /\ (fst (GetHeader req "authorization") = false ->
      run (HTTPReq_JSONRPC cred req)
      = ([EvWriteReply HTTP_UNAUTHORIZED EmptyString], Ret false)).
Proof.
  intros Hpost Hf. split; intros Hh.
  - destruct (AuthFailure_not_authorized cred req Hf) as [Hn|Ha]; [congruence|].
    rewrite (HTTPReq_JSONRPC_rejected cred req Hpost Hh Ha). split; [reflexivity|].
    eexists [_; _], _, _, []. split; [reflexivity|]. right. now left.
  - apply (HTTPReq_JSONRPC_no_header cred req Hpost Hh).
Qed.

Lemma failed_credentials_are_delayed_witness :
  let backend := sample_backend (false, EmptyString) in
  run (HTTPReq_JSONRPC "user:pass"
         (sample_request (Some "Basic dXNlcjpwYXNy") "[]"))
  = ([EvLogPrintf ("ThreadRPCServer incorrect password attempt from 127.0.0.1:51234"
                   +:+ newline);
      EvMilliSleep 250;
      EvWriteReply 401 EmptyString], Ret false).
Proof.
  intros backend.
  apply (failed_credentials_are_delayed "user:pass"
           (sample_request (Some "Basic dXNlcjpwYXNy") "[]"));
    [reflexivity | | reflexivity].
  now apply (MismatchedCredential _ _ "dXNlcjpwYXNy" "user:pasr").
Defined.

(** ** The error mapper *)

Lemma JSONErrorReply_with_code `{RPCBackend}
    (objError : Object) (id : Value) (jreq : JSONRequest) (code : Z) :
  find_value objError "code" = Vint code ->
  JSONErrorReply objError id jreq
  = ([EvWriteHeader "Content-Type" "application/json";
      EvWriteReply (JSONErrorReply_nStatus (to_int code))
        (JSONRPCReply Vnull (Vobj objError) id)],
     jreq, Ret tt).
Proof. intros Hc. unfold JSONErrorReply. rewrite Hc. reflexivity. Qed.

Lemma JSONErrorReply_without_code `{RPCBackend}
    (objError : Object) (id : Value) (jreq : JSONRequest) (e : Exn) :
  get_int (find_value objError "code") = Throw e ->
  JSONErrorReply objError id jreq = ([], jreq, Throw e).
Proof. intros Hc. unfold JSONErrorReply. rewrite Hc. reflexivity. Qed.

Lemma to_int_range (i : Z) : - 2 ^ 31 <= to_int i < 2 ^ 31.
Proof.
  unfold to_int. pose proof (Z.mod_pos_bound (i + 2 ^ 31) (2 ^ 32) ltac:(lia)). lia.
Qed.

Lemma to_int_small (i : Z) : - 2 ^ 31 <= i < 2 ^ 31 -> to_int i = i.
Proof. intros Hi. unfold to_int. rewrite Z.mod_small by lia. lia. Qed.

(** C7, as the claim states it, fails: the code of the error object is read
    into a 32-bit int, so the integer -32600 + 2^32, which is neither the
    invalid-request nor the method-not-found code, is answered with status
    400 and not 500. *)
Lemma narrowed_code_maps_to_400 :
  let backend := sample_backend (false, EmptyString) in
  let code := RPC_INVALID_REQUEST + 2 ^ 32 in
  let objError := JSONRPCError code "out of range" in
  code <> RPC_INVALID_REQUEST
  /\ code <> RPC_METHOD_NOT_FOUND
  /\ JSONErrorReply objError Vnull JSONRequest_new
     = ([EvWriteHeader "Content-Type" "application/json";
         EvWriteReply HTTP_BAD_REQUEST (JSONRPCReply Vnull (Vobj objError) Vnull)],
        JSONRequest_new, Ret tt).
Proof.
  intros backend code objError.
  split; [discriminate|]. split; [discriminate|]. reflexivity.
Qed.

(** C7, amended. The status JSONErrorReply sends is a total function of the
    integer code of the error object: the code is read into a 32-bit int
    (an integer outside the int range is narrowed modulo 2^32, one inside
    is unchanged), and the status is 400 when that int is the
    invalid-request code, 404 when it is the method-not-found code and 500
    for every other, parse error and in-warm-up included; this is the
    status JSONErrorReply writes for an error object that carries the
    code. *)
Theorem error_status_is_total (code : Z) :
  let narrowed := to_int code in
  - 2 ^ 31 <= narrowed < 2 ^ 31
  /\ (- 2 ^ 31 <= code < 2 ^ 31 -> narrowed = code)
  /\ (narrowed = RPC_INVALID_REQUEST ->
      JSONErrorReply_nStatus narrowed = HTTP_BAD_REQUEST)
  /\ (narrowed = RPC_METHOD_NOT_FOUND ->
      JSONErrorReply_nStatus narrowed = HTTP_NOT_FOUND)
  /\ (narrowed <> RPC_INVALID_REQUEST -> narrowed <> RPC_METHOD_NOT_FOUND ->
      JSONErrorReply_nStatus narrowed = HTTP_INTERNAL_SERVER_ERROR)
  /\ JSONErrorReply_nStatus (to_int RPC_PARSE_ERROR) = HTTP_INTERNAL_SERVER_ERROR
  /\ JSONErrorReply_nStatus (to_int RPC_IN_WARMUP) = HTTP_INTERNAL_SERVER_ERROR
  /\ (forall (backend : RPCBackend) (objError : Object) (id : Value) (jreq : JSONRequest),
        find_value objError "code" = Vint code ->
        JSONErrorReply objError id jreq
        = ([EvWriteHeader "Content-Type" "application/json";
            EvWriteReply (JSONErrorReply_nStatus narrowed)
              (JSONRPCReply Vnull (Vobj objError) id)],
           jreq, Ret tt)).
Proof.
  intros narrowed. subst narrowed.
  split; [apply to_int_range|]. split; [apply to_int_small|].
  split; [now intros ->|]. split; [now intros ->|]. split; [|split; [|split]].
  - intros H1 H2. unfold JSONErrorReply_nStatus.
    destruct (Z.eqb_spec (to_int code) RPC_INVALID_REQUEST); [contradiction|].
    destruct (Z.eqb_spec (to_int code) RPC_METHOD_NOT_FOUND); [contradiction|].
    reflexivity.
  - reflexivity.
  - reflexivity.
  - intros backend objError id jreq Hc. now apply JSONErrorReply_with_code.
Qed.

Lemma error_status_is_total_witness :
  to_int (-8) = -8
  /\ JSONErrorReply_nStatus (to_int (-8)) = 500
  /\ JSONErrorReply_nStatus (to_int (2 ^ 32 - 32601)) = 404.
Proof.
  destruct (error_status_is_total (-8)) as (_ & Hin & _ & _ & Hother & _).
  destruct (error_status_is_total (2 ^ 32 - 32601)) as (_ & _ & _ & Hnotfound & _).
  split; [apply Hin; lia|]. split; [apply Hother; discriminate | now apply Hnotfound].
Defined.

(** ** HTTPReq_JSONRPC: the protected block *)

Ltac eff_step :=
  cbv beta iota zeta delta
    [run try_catch mbind mret Eff_bind Eff_ret get_jreq put_jreq emit lift throw
     execute WriteHeader WriteReply error_reply];
  cbn [app id strMethod params].

Ltac run_protected Hauth :=
  destruct Hauth as (Hpost & Hheader & Hauthorized);
  rewrite (HTTPReq_JSONRPC_accepted _ _ Hpost Hheader Hauthorized);
  unfold HTTPReq_JSONRPC_body; eff_step.

Lemma body_parse_error `{RPCBackend} (cred : string) (req : HTTPRequest) :
  authenticated_post cred req ->
  read_string (ReadBody req) = None ->
  run (HTTPReq_JSONRPC cred req)
  = error_reply RPC_PARSE_ERROR (JSONRPCError RPC_PARSE_ERROR "Parse error") Vnull.
Proof. intros Hauth Hread. run_protected Hauth. rewrite Hread. reflexivity. Qed.

Lemma body_in_warmup `{RPCBackend} (cred : string) (req : HTTPRequest)
    (valRequest : Value) (warmupStatus : string) :
  authenticated_post cred req ->
  read_string (ReadBody req) = Some valRequest ->
  RPCIsInWarmup = (true, warmupStatus) ->
  run (HTTPReq_JSONRPC cred req)
  = error_reply RPC_IN_WARMUP (JSONRPCError RPC_IN_WARMUP warmupStatus) Vnull.
Proof.
  intros Hauth Hread Hwarm. run_protected Hauth. rewrite Hread, Hwarm. reflexivity.
Qed.

Lemma body_top_level_error `{RPCBackend} (cred : string) (req : HTTPRequest)
    (valRequest : Value) (warmupStatus : string) :
  authenticated_post cred req ->
  read_string (ReadBody req) = Some valRequest ->
  RPCIsInWarmup = (false, warmupStatus) ->
  type valRequest <> obj_type ->
  type valRequest <> array_type ->
  run (HTTPReq_JSONRPC cred req)
  = error_reply RPC_PARSE_ERROR
      (JSONRPCError RPC_PARSE_ERROR "Top-level object parse error") Vnull.
Proof.
  intros Hauth Hread Hwarm Hobj Harr. run_protected Hauth. rewrite Hread, Hwarm.
  destruct valRequest; try reflexivity; now simpl in *.
Qed.

Lemma JSONRequest_parse_single_call (request : Object) (m : string) (p : Value)
    (jreq : JSONRequest) :
  single_call request = Some (m, p) ->
  JSONRequest_parse (Vobj request) jreq
  = ([], {| id := find_value request "id"; strMethod := m; params := p |}, Ret tt).
Proof.
  unfold single_call, JSONRequest_parse. intros Hs.
  destruct (find_value request "method"); try discriminate Hs.
  destruct (find_value request "params"); try discriminate Hs;
    injection Hs as <- <-; reflexivity.
Qed.

(** A well-formed single call outside warm-up: the registry is called once,
    and its outcome decides the reply. *)
Lemma body_single_call `{RPCBackend} (cred : string) (req : HTTPRequest)
    (request : Object) (warmupStatus m : string) (p : Value) :
  authenticated_post cred req ->
  read_string (ReadBody req) = Some (Vobj request) ->
  RPCIsInWarmup = (false, warmupStatus) ->
  single_call request = Some (m, p) ->
  run (HTTPReq_JSONRPC cred req)
  = match tableRPC_execute m p with
    | Ret result =>
        ([EvExecute m p;
          EvWriteHeader "Content-Type" "application/json";
          EvWriteReply HTTP_OK (JSONRPCReply result Vnull (find_value request "id"))],
         Ret true)
    | Throw (ExStd what) =>
        let '(t, r) := error_reply RPC_PARSE_ERROR (JSONRPCError RPC_PARSE_ERROR what)
                         (find_value request "id") in
        (EvExecute m p :: t, r)
    | Throw (ExObject objError) =>
        match get_int (find_value objError "code") with
        | Ret code =>
            let '(t, r) := error_reply code objError (find_value request "id") in
            (EvExecute m p :: t, r)
        | Throw e => ([EvExecute m p], Throw e)
        end
    end.
Proof.
  intros Hauth Hread Hwarm Hcall. run_protected Hauth. rewrite Hread, Hwarm.
  rewrite (JSONRequest_parse_single_call request m p _ Hcall). eff_step.
  destruct (tableRPC_execute m p) as [result | [objError | what]].
  - reflexivity.
  - unfold JSONErrorReply. eff_step.
    destruct (get_int (find_value objError "code")); reflexivity.
  - reflexivity.
Qed.

(** ** The warm-up gate *)

(** C6. For an authenticated POST whose body parses as JSON: if the warm-up
    gate reports that the node is warming up, the method registry is not
    invoked, and the response is the JSON-RPC error envelope whose code is
    the in-warm-up code and whose message is the status text of the gate
    (status 500, id null). *)
Theorem warmup_short_circuits `{RPCBackend} (cred : string) (req : HTTPRequest)
    (valRequest : Value) (warmupStatus : string) :
  authenticated_post cred req ->
  read_string (ReadBody req) = Some valRequest ->
  RPCIsInWarmup = (true, warmupStatus) ->
  run (HTTPReq_JSONRPC cred req)
  = ([EvWriteHeader "Content-Type" "application/json";
      EvWriteReply HTTP_INTERNAL_SERVER_ERROR
        (write_string
           (Vobj [("result", Vnull);
                  ("error", Vobj [("code", Vint RPC_IN_WARMUP);
                                  ("message", Vstr warmupStatus)]);
                  ("id", Vnull)]))],
     Ret false)
  /\ ~ registry_invoked (fst (run (HTTPReq_JSONRPC cred req))).
Proof.
  intros Hauth Hread Hwarm.
  rewrite (body_in_warmup cred req valRequest warmupStatus Hauth Hread Hwarm).
  split; [reflexivity|].
  intros (method & args & [Hin | [Hin | []]]); discriminate Hin.
Qed.

Lemma warmup_short_circuits_witness :
  let backend := sample_backend (true, "Loading block index...") in
  run (HTTPReq_JSONRPC "user:pass"
         (sample_request (Some "Basic dXNlcjpwYXNz") (sample_write ping_request)))
  = ([EvWriteHeader "Content-Type" "application/json";
      EvWriteReply 500
        (sample_write
           (Vobj [("result", Vnull);
                  ("error", Vobj [("code", Vint (-28));
                                  ("message", Vstr "Loading block index...")]);
                  ("id", Vnull)]))],
     Ret false).
Proof.
  intros backend.
  refine (proj1 (warmup_short_circuits "user:pass"
           (sample_request (Some "Basic dXNlcjpwYXNz") (sample_write ping_request))
           ping_request "Loading block index..." _ _ _));
    [repeat split | reflexivity | reflexivity].
Defined.

(** ** The id of the response *)

Lemma find_value_absent (obj : Object) (name : string) :
  (forall n v, In (n, v) obj -> n <> name) -> find_value obj name = Vnull.
Proof.
  induction obj as [|[n v] obj IH]; intros Habs; simpl; [reflexivity|].
  destruct (String.eqb_spec n name) as [->|_].
  - exfalso. apply (Habs name v); [now left | reflexivity].
  - apply IH. intros n' v' Hin. apply (Habs n' v'). now right.
Qed.

(** C5, as the claim states it, fails: during warm-up an authenticated,
    well-formed single call with id 7 is answered with an error envelope
    whose id is null; the body differs from the envelope that echoes 7. *)
Lemma warmup_reply_drops_the_id :
  let backend := sample_backend (true, "Loading block index...") in
  let req := sample_request (Some "Basic dXNlcjpwYXNz") (sample_write ping_request) in
  let error := Vobj (JSONRPCError RPC_IN_WARMUP "Loading block index...") in
  authenticated_post "user:pass" req
  /\ read_string (ReadBody req) = Some ping_request
  /\ single_call [("method", Vstr "ping"); ("params", Varray []); ("id", Vint 7)]
     = Some ("ping", Varray [])
  /\ run (HTTPReq_JSONRPC "user:pass" req)
     = ([EvWriteHeader "Content-Type" "application/json";
         EvWriteReply 500 (write_string (Vobj (JSONRPCReplyObj Vnull error Vnull)))],
        Ret false)
  /\ find_value (JSONRPCReplyObj Vnull error Vnull) "id" = Vnull
  /\ write_string (Vobj (JSONRPCReplyObj Vnull error Vnull))
     <> write_string (Vobj (JSONRPCReplyObj Vnull error (Vint 7))).
Proof.
  intros backend req error.
  split; [repeat split|]. do 4 (split; [reflexivity|]).
  intros Heq. vm_compute in Heq. discriminate Heq.
Qed.

(** C5, amended. For an authenticated, well-formed single call received
    while the node is not warming up, the envelope written in response,
    be it the result envelope or an error envelope, carries the id of the
    request; an id that is null or absent is echoed as JSON null. *)
Theorem response_echoes_request_id `{RPCBackend} (cred : string) (req : HTTPRequest)
    (request : Object) (warmupStatus m : string) (p : Value) :
  authenticated_post cred req ->
  read_string (ReadBody req) = Some (Vobj request) ->
  RPCIsInWarmup = (false, warmupStatus) ->
  single_call request = Some (m, p) ->
  let rid := find_value request "id" in
  (forall result, tableRPC_execute m p = Ret result ->
     run (HTTPReq_JSONRPC cred req)
     = ([EvExecute m p;
         EvWriteHeader "Content-Type" "application/json";
         EvWriteReply HTTP_OK
           (write_string (Vobj [("result", result); ("error", Vnull); ("id", rid)]))],
        Ret true))
  /\ (forall objError code,
        tableRPC_execute m p = Throw (ExObject objError) ->
        find_value objError "code" = Vint code ->
        run (HTTPReq_JSONRPC cred req)
        = ([EvExecute m p;
            EvWriteHeader "Content-Type" "application/json";
            EvWriteReply (JSONErrorReply_nStatus (to_int code))
              (write_string
                 (Vobj [("result", Vnull); ("error", Vobj objError); ("id", rid)]))],
           Ret false))
  /\ (forall what,
        tableRPC_execute m p = Throw (ExStd what) ->
        run (HTTPReq_JSONRPC cred req)
        = ([EvExecute m p;
            EvWriteHeader "Content-Type" "application/json";
            EvWriteReply HTTP_INTERNAL_SERVER_ERROR
              (write_string
                 (Vobj [("result", Vnull);
                        ("error", Vobj (JSONRPCError RPC_PARSE_ERROR what));
                        ("id", rid)]))],
           Ret false))
  /\ ((forall n v, In (n, v) request -> n <> "id") -> rid = Vnull).
Proof.
  intros Hauth Hread Hwarm Hcall rid.
  pose proof (body_single_call cred req request warmupStatus m p
                Hauth Hread Hwarm Hcall) as Hrun.
  repeat split.
  - intros result Hexec. rewrite Hrun, Hexec. reflexivity.
  - intros objError code Hexec Hcode. rewrite Hrun, Hexec, Hcode. reflexivity.
  - intros what Hexec. rewrite Hrun, Hexec. reflexivity.
  - apply find_value_absent.
Qed.

Lemma response_echoes_request_id_witness :
  let backend := sample_backend (false, EmptyString) in
  run (HTTPReq_JSONRPC "user:pass"
         (sample_request (Some "Basic dXNlcjpwYXNz") (sample_write ping_request)))
  = ([EvExecute "ping" (Varray []);
      EvWriteHeader "Content-Type" "application/json";
      EvWriteReply 200
        (sample_write (Vobj [("result", Vstr "pong"); ("error", Vnull); ("id", Vint 7)]))],
     Ret true).
Proof.
  intros backend.
  refine (proj1 (response_echoes_request_id "user:pass"
           (sample_request (Some "Basic dXNlcjpwYXNz") (sample_write ping_request))
           [("method", Vstr "ping"); ("params", Varray []); ("id", Vint 7)]
           EmptyString "ping" (Varray []) _ _ _ _) (Vstr "pong") _);
    [repeat split | reflexivity..].
Defined.

(** ** Nothing escapes the translator *)

Lemma JSONRequest_parse_outcome (valRequest : Value) (jreq : JSONRequest) :
  exists j r, JSONRequest_parse valRequest jreq = ([], j, r)
              /\ match r with Throw e => coded e | Ret _ => True end.
Proof.
  unfold JSONRequest_parse.
  destruct valRequest as [| | | | |a|request];
    try (eexists _, _; split; [reflexivity | simpl; eauto]).
  eff_step.
  destruct (find_value request "method");
    try (eexists _, _; split; [reflexivity | simpl; eauto]).
  eff_step.
  destruct (find_value request "params");
    eexists _, _; (split; [reflexivity | simpl; eauto]).
Qed.

Section Batch.
Context `{RPCBackend}.

Lemma JSONRPCExecOne_returns (req : Value) (jreq : JSONRequest) :
  exists t j r, JSONRPCExecOne req jreq = (t, j, Ret r).
Proof.
  unfold JSONRPCExecOne. eff_step.
  destruct (JSONRequest_parse_outcome req JSONRequest_new) as (j & r & -> & _).
  destruct r as [[]|[objError|what]]; eff_step; eauto.
  destruct (tableRPC_execute (strMethod j) (params j)) as [result|[objError|what]];
    eff_step; eauto.
Qed.

Lemma JSONRPCExecEach_returns (vReq : Array) (jreq : JSONRequest) :
  exists t j rs, JSONRPCExecEach vReq jreq = (t, j, Ret rs).
Proof.
  revert jreq. induction vReq as [|req vReq IH]; intros jreq; simpl.
  - eexists _, _, _. reflexivity.
  - eff_step. destruct (JSONRPCExecOne_returns req jreq) as (t1 & j1 & r & ->).
    destruct (IH j1) as (t2 & j2 & rs & ->). eauto.
Qed.

Lemma JSONRPCExecBatch_returns (vReq : Array) (jreq : JSONRequest) :
  exists t strReply, JSONRPCExecBatch vReq jreq = (t, jreq, Ret strReply).
Proof.
  unfold JSONRPCExecBatch. eff_step.
  destruct (JSONRPCExecEach_returns vReq jreq) as (t & j & rs & ->). eauto.
Qed.

Hypothesis Hregistry : registry_throws_coded.

Lemma HTTPReq_JSONRPC_body_outcome (req : HTTPRequest) (jreq : JSONRequest) :
  exists t j r, HTTPReq_JSONRPC_body req jreq = (t, j, r)
                /\ match r with Throw e => coded e | Ret _ => True end.
Proof.
  unfold HTTPReq_JSONRPC_body.
  destruct (read_string (ReadBody req)) as [valRequest|];
    [|eexists _, _, _; split; [reflexivity | simpl; eauto]].
  destruct RPCIsInWarmup as [[] warmupStatus];
    [eexists _, _, _; split; [reflexivity | simpl; eauto]|].
  destruct valRequest as [| | | | |a|request];
    try (eexists _, _, _; split; [reflexivity | simpl; eauto]).
  - eff_step. destruct (JSONRPCExecBatch_returns a jreq) as (t & strReply & ->).
    eexists _, _, _; split; [reflexivity | exact I].
  - eff_step.
    destruct (JSONRequest_parse_outcome (Vobj request) jreq) as (j & r & -> & Hr).
    destruct r as [[]|e]; [|eexists _, _, _; split; [reflexivity | exact Hr]].
    destruct (tableRPC_execute (strMethod j) (params j)) as [result|e] eqn:Hexec.
    + eexists _, _, _; split; [reflexivity | exact I].
    + eexists _, _, _; split; [reflexivity | exact (Hregistry _ _ _ Hexec)].
Qed.

Lemma HTTPReq_JSONRPC_returns (cred : string) (req : HTTPRequest) :
  exists t b, run (HTTPReq_JSONRPC cred req) = (t, Ret b).
Proof.
  unfold HTTPReq_JSONRPC.
  destruct (RequestMethod_eqb (GetRequestMethod req) POST); [|now eexists _, _].
  destruct (fst (GetHeader req "authorization")); [|now eexists _, _].
  rewrite RPCAuthorized_refines.
  destruct (Authorized_spec cred (snd (GetHeader req "authorization")));
    [|now eexists _, _].
  cbn [negb]. eff_step.
  destruct (HTTPReq_JSONRPC_body_outcome req JSONRequest_new) as (t & j & r & -> & Hr).
  destruct r as [[]|[objError|what]]; [now eexists _, _| |].
  - destruct Hr as (code & Hcode).
    rewrite (JSONErrorReply_with_code objError _ j code Hcode). now eexists _, _.
  - rewrite (JSONErrorReply_with_code (JSONRPCError RPC_PARSE_ERROR what) _ j
               RPC_PARSE_ERROR eq_refl).
    now eexists _, _.
Qed.
End Batch.




(** ** The credential store *)

Lemma map_subscript_value (k : string) (m : gmap string string) :
  fst (map_subscript k m) = default EmptyString (m !! k).
Proof. unfold map_subscript. now destruct (m !! k). Qed.

Lemma map_subscript_other (k k' : string) (m : gmap string string) :
  k <> k' -> snd (map_subscript k m) !! k' = m !! k'.
Proof.
  intros Hne. unfold map_subscript.
  destruct (m !! k); simpl; [reflexivity | now apply lookup_insert_ne].
Qed.

Lemma InitRPCAuthentication_credential (RequireRPCPassword : bool)
    (strConfigFile strRandPwd : string) (g : Globals) :
  strRPCUserColonPass
    (fst (InitRPCAuthentication RequireRPCPassword strConfigFile strRandPwd g))
  = default EmptyString (mapArgs g !! "-rpcuser") +:+ ":"
    +:+ default EmptyString (mapArgs g !! "-rpcpassword").
Proof.
  unfold InitRPCAuthentication.
  pose proof (map_subscript_value "-rpcuser" (mapArgs g)) as Hu.
  pose proof (map_subscript_other "-rpcuser" "-rpcpassword" (mapArgs g)
                ltac:(discriminate)) as Ho.
  destruct (map_subscript "-rpcuser" (mapArgs g)) as [rpcuser m1].
  pose proof (map_subscript_value "-rpcpassword" m1) as Hp.
  destruct (map_subscript "-rpcpassword" m1) as [rpcpassword m2].
  simpl in Hu, Ho, Hp. rewrite Ho in Hp. subst rpcuser rpcpassword.
  match goal with |- context [if ?c then _ else _] => destruct c end; reflexivity.
Qed.

Lemma InitRPCAuthentication_ok (RequireRPCPassword : bool)
    (strConfigFile strRandPwd : string) (g : Globals) :
  snd (InitRPCAuthentication RequireRPCPassword strConfigFile strRandPwd g)
  = negb ((String.eqb (default EmptyString (mapArgs g !! "-rpcpassword")) EmptyString
           || String.eqb (default EmptyString (mapArgs g !! "-rpcuser"))
                         (default EmptyString (mapArgs g !! "-rpcpassword")))
          && RequireRPCPassword).
Proof.
  unfold InitRPCAuthentication.
  pose proof (map_subscript_value "-rpcuser" (mapArgs g)) as Hu.
  pose proof (map_subscript_other "-rpcuser" "-rpcpassword" (mapArgs g)
                ltac:(discriminate)) as Ho.
  destruct (map_subscript "-rpcuser" (mapArgs g)) as [rpcuser m1].
  pose proof (map_subscript_value "-rpcpassword" m1) as Hp.
  destruct (map_subscript "-rpcpassword" m1) as [rpcpassword m2].
  simpl in Hu, Ho, Hp. rewrite Ho in Hp. subst rpcuser rpcpassword.
  match goal with |- context [if ?c then _ else _] => destruct c end; reflexivity.
Qed.

Lemma StartHTTPRPC_credential (RequireRPCPassword : bool)
    (strConfigFile strRandPwd : string) (EventBase : option nat) (g g' : Globals)
    (ok : bool) :
  StartHTTPRPC RequireRPCPassword strConfigFile strRandPwd EventBase g = Some (g', ok) ->
  strRPCUserColonPass g'
  = strRPCUserColonPass
      (fst (InitRPCAuthentication RequireRPCPassword strConfigFile strRandPwd g))
  /\ ok = snd (InitRPCAuthentication RequireRPCPassword strConfigFile strRandPwd g).
Proof.
  unfold StartHTTPRPC.
  destruct (InitRPCAuthentication RequireRPCPassword strConfigFile strRandPwd g)
    as [g1 [|]]; simpl.
  - destruct EventBase as [base|]; [|discriminate]. intros [= <- <-]. now split.
  - intros [= <- <-]. now split.
Qed.

(** C10. InitRPCAuthentication stores the configured user, a colon and the
    configured secret, so the stored credential is never empty: after
    StartHTTPRPC has succeeded, RPCAuthorized does not take its
    empty-credential branch. With both values empty and no password
    required, start-up succeeds, the credential is ":" and the header that
    carries base64(":") is authorized. *)
Theorem credential_is_never_empty (RequireRPCPassword : bool)
    (strConfigFile strRandPwd : string) (g : Globals) :
  let rpcuser := default EmptyString (mapArgs g !! "-rpcuser") in
  let rpcpassword := default EmptyString (mapArgs g !! "-rpcpassword") in
  let init := InitRPCAuthentication RequireRPCPassword strConfigFile strRandPwd g in
  strRPCUserColonPass (fst init) = rpcuser +:+ ":" +:+ rpcpassword
  /\ empty (strRPCUserColonPass (fst init)) = false
  /\ (forall EventBase g',
        StartHTTPRPC RequireRPCPassword strConfigFile strRandPwd EventBase g
        = Some (g', true) ->
        strRPCUserColonPass g' = rpcuser +:+ ":" +:+ rpcpassword
        /\ empty (strRPCUserColonPass g') = false)
  /\ (rpcuser = EmptyString -> rpcpassword = EmptyString ->
      RequireRPCPassword = false ->
      snd init = true
      /\ strRPCUserColonPass (fst init) = ":"
      /\ RPCAuthorized (strRPCUserColonPass (fst init))
           ("Basic " +:+ EncodeBase64 ":") = Ret true
      /\ forall base, exists g',
           StartHTTPRPC RequireRPCPassword strConfigFile strRandPwd (Some base) g
           = Some (g', true)
           /\ strRPCUserColonPass g' = ":").
Proof.
  intros rpcuser rpcpassword init.
  pose proof (InitRPCAuthentication_credential
                RequireRPCPassword strConfigFile strRandPwd g) as Hcred.
  pose proof (InitRPCAuthentication_ok
                RequireRPCPassword strConfigFile strRandPwd g) as Hok.
  fold init rpcuser rpcpassword in Hcred, Hok.
  assert (Hne : forall s, s = rpcuser +:+ ":" +:+ rpcpassword -> empty s = false).
  { intros s ->. destruct (empty _) eqn:E; [|reflexivity].
    apply empty_spec in E. now apply append_not_empty in E. }
  split; [exact Hcred|]. split; [now apply Hne|]. split.
  - intros EventBase g' Hstart.
    apply StartHTTPRPC_credential in Hstart as [Hg' _]. fold init in Hg'.
    rewrite Hg', Hcred. split; [reflexivity | now apply Hne].
  - intros Hu Hp ->. rewrite Hu, Hp in Hcred, Hok. simpl in Hok.
    split; [exact Hok|]. split; [exact Hcred|]. split; [now rewrite Hcred|].
    intros base. unfold StartHTTPRPC. fold init.
    destruct init as [g1 ok]. simpl in Hcred, Hok. subst ok. simpl.
    eexists. split; [reflexivity | exact Hcred].
Qed.

Lemma credential_is_never_empty_witness :
  let g := {| mapArgs := ∅; strRPCUserColonPass := EmptyString;
              httpRPCTimerInterface := None; pathHandlers := [];
              timerInterface := None; messageBoxes := [] |} in
  let init := InitRPCAuthentication false "bitcoin.conf" "3vQB7B6MrGQZaxCuFg4oh" g in
  snd init = true
  /\ strRPCUserColonPass (fst init) = ":"
  /\ RPCAuthorized (strRPCUserColonPass (fst init)) "Basic Og==" = Ret true.
Proof.
  intros g init.
  destruct (credential_is_never_empty false "bitcoin.conf" "3vQB7B6MrGQZaxCuFg4oh" g)
    as (_ & _ & _ & Hempty).
  destruct (Hempty eq_refl eq_refl eq_refl) as (Hok & Hcred & Hauth & _).
  repeat split; assumption.
Defined.

(** ** The one-shot timer *)

Lemma times_fired_called (e e' : nat) (h : string) (evs : gmap nat HTTPEvent)
    (n : nat) (l : list (nat * string)) :
  times_fired e {| events := evs; next_event := n; called := l ++ [(e', h)] |}
  = (times_fired e {| events := evs; next_event := n; called := l |}
     + (if decide (e' = e) then 1 else 0))%nat.
Proof.
  unfold times_fired. cbn [called]. rewrite filter_app, length_app. f_equal.
  rewrite filter_cons. cbn [fst]. now destruct (decide (e' = e)).
Qed.

Lemma times_fired_fresh (e : nat) (b : event_base) :
  (forall e' h, In (e', h) (called b) -> e' <> e) -> times_fired e b = 0%nat.
Proof.
  unfold times_fired. induction (called b) as [|[e' h] l IH]; intros Hl; [reflexivity|].
  rewrite filter_cons. cbn [fst].
  destruct (decide (e' = e)) as [He|_]; [now destruct (Hl e' h (or_introl eq_refl))|].
  apply IH. intros e'' h' Hin. apply (Hl e'' h'). now right.
Qed.

Lemma loop_run_invariant (P : event_base -> Prop) :
  (forall a b, P b -> P (loop_step a b)) ->
  forall acts b, P b -> P (loop_run acts b).
Proof.
  intros Hstep acts. unfold loop_run.
  induction acts as [|a acts IH]; intros b Hb; simpl; [exact Hb|].
  apply IH, Hstep, Hb.
Qed.

Lemma NewTimer_spec (base : event_base) (func : string) (seconds : Z) :
  NewTimer base func seconds
  = ({| ev := next_event base |},
     {| events := <[next_event base :=
                     {| deleteWhenTriggered := false; handler := func;
                        armed := Some seconds |}]> (events base);
        next_event := S (next_event base);
        called := called base |}).
Proof.
  unfold NewTimer, HTTPRPCTimer_new, HTTPEvent_new, HTTPEvent_trigger.
  cbn [events next_event called default]. now rewrite alter_insert_eq.
Qed.

Lemma wf_base_step (a : LoopAction) (b : event_base) :
  wf_base b -> wf_base (loop_step a b).
Proof.
  intros [Hev Hcalled]. destruct a as [e|t|func seconds]; cbn [loop_step].
  - unfold HTTPEvent_handle. destruct (events b !! e) as [x|] eqn:Hx; [|now split].
    destruct (armed x); [|now split].
    assert (He : (e < next_event b)%nat) by (apply Hev; rewrite Hx; eauto).
    assert (Hc : forall e' h, In (e', h) (called b ++ [(e, handler x)]) ->
                              (e' < next_event b)%nat).
    { intros e' h Hin. apply in_app_or in Hin as [Hin|Hin]; [eauto|].
      destruct Hin as [Heq|Hin]; [|destruct Hin]. now injection Heq as <- <-. }
    destruct (deleteWhenTriggered x); (split; [|exact Hc]); cbn; intros e'.
    + rewrite lookup_delete_is_Some, lookup_insert_is_Some.
      intros [Hne [Heq|[_ Hs]]]; [contradiction | eauto].
    + rewrite lookup_insert_is_Some. intros [<-|[_ Hs]]; eauto.
  - split; [|exact Hcalled]. cbn. intros e.
    rewrite lookup_delete_is_Some. intros [_ Hs]. eauto.
  - rewrite NewTimer_spec. split; cbn.
    + intros e. rewrite lookup_insert_is_Some. intros [<-|[_ Hs]]; [lia|].
      apply Hev in Hs. lia.
    + intros e h Hin. apply Hcalled in Hin. lia.
Qed.

Lemma wf_base_reachable (acts : list LoopAction) :
  wf_base (loop_run acts event_base_new).
Proof.
  apply (loop_run_invariant wf_base); [apply wf_base_step|].
  split; cbn; [intros e [x Hx]; now rewrite lookup_empty in Hx | intros e h []].
Qed.

Lemma one_shot_step (e : nat) (a : LoopAction) (b : event_base) :
  one_shot e b -> one_shot e (loop_step a b).
Proof.
  intros [Hlt Hone]. destruct a as [e'|t|func seconds]; cbn [loop_step].
  - unfold HTTPEvent_handle. destruct (events b !! e') as [x|] eqn:Hx; [|now split].
    destruct (armed x) as [tv|] eqn:Ha; [|now split].
    assert (Hfired :
      (times_fired e {| events := <[e' := {| deleteWhenTriggered := deleteWhenTriggered x;
                                             handler := handler x; armed := None |}]>
                                    (events b);
                        next_event := next_event b;
                        called := called b ++ [(e', handler x)] |}
       + (if decide (e' = e) then 0 else armed_live e b) <= 1)%nat).
    { rewrite times_fired_called. unfold armed_live, times_fired in *.
      destruct (decide (e' = e)) as [->|Hne]; [|cbn [called]; lia].
      rewrite Hx, Ha in Hone. cbn [called]. lia. }
    destruct (deleteWhenTriggered x); (split; [exact Hlt|]);
      unfold armed_live, times_fired, HTTPEvent_delete in *; cbn [events called] in *;
      destruct (decide (e' = e)) as [->|Hne].
    + rewrite lookup_delete_eq. lia.
    + rewrite lookup_delete_ne, lookup_insert_ne by exact Hne. exact Hfired.
    + rewrite lookup_insert_eq. cbn [armed]. lia.
    + rewrite lookup_insert_ne by exact Hne. exact Hfired.
  - split; [exact Hlt|].
    unfold armed_live, times_fired, HTTPRPCTimer_delete, HTTPEvent_delete in *.
    cbn [events called]. destruct (decide (ev t = e)) as [->|Hne].
    + rewrite lookup_delete_eq. lia.
    + now rewrite lookup_delete_ne.
  - rewrite NewTimer_spec. split; cbn [snd next_event]; [lia|].
    unfold armed_live, times_fired in *. cbn [events called].
    rewrite lookup_insert_ne by lia. exact Hone.
Qed.

Lemma canceled_step (e : nat) (a : LoopAction) (b : event_base) :
  canceled e b -> canceled e (loop_step a b).
Proof.
  intros (Hlt & Hgone & Hnever). destruct a as [e'|t|func seconds]; cbn [loop_step].
  - unfold HTTPEvent_handle. destruct (events b !! e') as [x|] eqn:Hx; [|now repeat split].
    destruct (armed x); [|now repeat split].
    assert (Hne : e' <> e) by congruence.
    assert (Hfired :
      times_fired e {| events := <[e' := {| deleteWhenTriggered := deleteWhenTriggered x;
                                            handler := handler x; armed := None |}]>
                                   (events b);
                       next_event := next_event b;
                       called := called b ++ [(e', handler x)] |} = 0%nat).
    { rewrite times_fired_called. unfold times_fired in *. cbn [called].
      destruct (decide (e' = e)); [contradiction | lia]. }
    destruct (deleteWhenTriggered x); (split; [exact Hlt|]); (split; [|exact Hfired]);
      unfold HTTPEvent_delete; cbn [events].
    + now rewrite lookup_delete_ne, lookup_insert_ne.
    + now rewrite lookup_insert_ne.
  - split; [exact Hlt|]. split; [|exact Hnever].
    unfold HTTPRPCTimer_delete, HTTPEvent_delete. cbn [events].
    destruct (decide (ev t = e)) as [->|Hne];
      [apply lookup_delete_eq | now rewrite lookup_delete_ne].
  - rewrite NewTimer_spec. split; cbn [snd next_event]; [lia|].
    split; [|exact Hnever]. cbn [events]. now rewrite lookup_insert_ne by lia.
Qed.

Lemma HTTPEvent_handle_started (base : event_base) (func : string) (seconds : Z) :
  HTTPEvent_handle (next_event base) (snd (NewTimer base func seconds))
  = {| events := <[next_event base :=
                     {| deleteWhenTriggered := false; handler := func; armed := None |}]>
                   (<[next_event base :=
                        {| deleteWhenTriggered := false; handler := func;
                           armed := Some seconds |}]> (events base));
       next_event := S (next_event base);
       called := called base ++ [(next_event base, func)] |}.
Proof.
  rewrite NewTimer_spec. unfold HTTPEvent_handle. cbn [snd events].
  rewrite lookup_insert_eq. reflexivity.
Qed.

(** C9, as the claim states it, fails: a timer made by NewTimer is created
    with deleteWhenTriggered = false, so after its callback has run the
    event is still registered with the loop. *)
Lemma fired_timer_stays_registered :
  let t := fst (NewTimer event_base_new "relock" 60) in
  let started := snd (NewTimer event_base_new "relock" 60) in
  let fired := HTTPEvent_handle (ev t) started in
  called fired = [(ev t, "relock")]
  /\ events fired !! ev t
     = Some {| deleteWhenTriggered := false; handler := "relock"; armed := None |}
  /\ events fired !! ev t <> None.
Proof.
  intros t started fired.
  change (ev t) with (next_event event_base_new).
  assert (Hfired : fired = HTTPEvent_handle (next_event event_base_new)
                             (snd (NewTimer event_base_new "relock" 60)))
    by reflexivity.
  rewrite Hfired, HTTPEvent_handle_started. cbn [events called event_base_new app].
  rewrite lookup_insert_eq.
  split; [reflexivity|]. split; [reflexivity | discriminate].
Qed.

(** C9, amended. The callback of a timer made by NewTimer runs at most
    once, whatever the loop does afterwards. Firing does not destroy the
    timer: it was created with deleteWhenTriggered = false and stays
    registered, disarmed, until its owner deletes it; deleting it releases
    the registration, and a timer deleted before it fired never fires. *)
Theorem timer_fires_at_most_once (before after : list LoopAction)
    (func : string) (seconds : Z) :
  let base := loop_run before event_base_new in
  let t := fst (NewTimer base func seconds) in
  let started := snd (NewTimer base func seconds) in
  (times_fired (ev t) (loop_run after started) <= 1)%nat
  /\ called (HTTPEvent_handle (ev t) started) = called base ++ [(ev t, func)]
  /\ events (HTTPEvent_handle (ev t) started) !! ev t
     = Some {| deleteWhenTriggered := false; handler := func; armed := None |}
  /\ events (HTTPRPCTimer_delete t (HTTPEvent_handle (ev t) started)) !! ev t = None
  /\ times_fired (ev t) (loop_run after (HTTPRPCTimer_delete t started)) = 0%nat.
Proof.
  intros base t started.
  pose proof (wf_base_reachable before) as [_ Hcalled]. fold base in Hcalled.
  assert (Hfresh : times_fired (next_event base) started = 0%nat).
  { apply times_fired_fresh. subst started. rewrite NewTimer_spec. cbn [snd called].
    intros e' h Hin%Hcalled. lia. }
  assert (Ht : ev t = next_event base) by (subst t; now rewrite NewTimer_spec).
  rewrite Ht. unfold HTTPRPCTimer_delete. rewrite Ht.
  split; [|split; [|split; [|split]]].
  - enough (Hone : one_shot (next_event base) (loop_run after started))
      by (destruct Hone as [_ Hone]; lia).
    apply (loop_run_invariant (one_shot (next_event base))); [apply one_shot_step|].
    split; [subst started; rewrite NewTimer_spec; cbn; lia|].
    rewrite Hfresh. unfold armed_live. subst started. rewrite NewTimer_spec.
    cbn [snd events]. now rewrite lookup_insert_eq.
  - subst started. now rewrite HTTPEvent_handle_started.
  - subst started. rewrite HTTPEvent_handle_started. cbn [events].
    apply lookup_insert_eq.
  - unfold HTTPEvent_delete. cbn [events]. apply lookup_delete_eq.
  - enough (Hc : canceled (next_event base)
                   (loop_run after (HTTPEvent_delete (next_event base) started)))
      by apply Hc.
    apply (loop_run_invariant (canceled (next_event base))); [apply canceled_step|].
    split; [subst started; rewrite NewTimer_spec; cbn; lia|].
    split; [apply lookup_delete_eq | exact Hfresh].
Qed.

(* ===================================================================== *)
(** * Further properties of httprpc.cpp *)
(* ===================================================================== *)

(** ** The order of the checks in HTTPReq_JSONRPC *)

Lemma HTTPReq_JSONRPC_not_post `{RPCBackend} (cred : string) (req : HTTPRequest) :
  GetRequestMethod req <> POST ->
  run (HTTPReq_JSONRPC cred req)
  = ([EvWriteReply HTTP_BAD_METHOD "JSONRPC server handles only POST requests"],
     Ret false).
Proof.
  intros Hm. unfold HTTPReq_JSONRPC.
  destruct (GetRequestMethod req); try reflexivity. now destruct Hm.
Qed.

(** X1. A request whose method is not POST is answered with 405 and the
    fixed text before anything else is looked at: the credential, the
    headers, the body and the node's state play no part. *)
Theorem non_post_is_rejected_first `{RPCBackend} (cred : string) (req : HTTPRequest) :
  GetRequestMethod req <> POST ->
  run (HTTPReq_JSONRPC cred req)
  = ([EvWriteReply HTTP_BAD_METHOD "JSONRPC server handles only POST requests"],
     Ret false).
Proof.
  intros Hm. unfold HTTPReq_JSONRPC.
  destruct (GetRequestMethod req); try reflexivity. now destruct Hm.
Qed.

Lemma non_post_is_rejected_first_witness :
  let backend := sample_backend (true, "Loading block index...") in
  run (HTTPReq_JSONRPC "user:pass"
         {| GetRequestMethod := GET;
            GetHeader := fun _ => (true, "Basic dXNlcjpwYXNz");
            ReadBody := EmptyString; GetPeer := "127.0.0.1:51234" |})
  = ([EvWriteReply 405 "JSONRPC server handles only POST requests"], Ret false).
Proof.
  intros backend.
  apply (non_post_is_rejected_first "user:pass"). discriminate.
Defined.

Lemma not_authenticated_cases (cred : string) (req : HTTPRequest) :
  ~ authenticated_post cred req ->
  GetRequestMethod req <> POST
  \/ (GetRequestMethod req = POST /\ fst (GetHeader req "authorization") = false)
  \/ (GetRequestMethod req = POST /\ fst (GetHeader req "authorization") = true
      /\ RPCAuthorized cred (snd (GetHeader req "authorization")) = Ret false).
Proof.
  intros Hn. unfold authenticated_post in Hn.
  destruct (GetRequestMethod req) eqn:Hm; try (left; discriminate).
  right. destruct (fst (GetHeader req "authorization")) eqn:Hh; [right | now left].
  rewrite RPCAuthorized_refines in *.
  destruct (Authorized_spec cred (snd (GetHeader req "authorization")));
    [now destruct Hn | now repeat split].
Qed.

(** X2. What HTTPReq_JSONRPC does for a request that is not an
    authenticated POST does not depend on the JSON reader, the method
    registry or the warm-up state, and the registry is not called: a caller
    without the credential learns nothing about the node's readiness. *)
Theorem unauthenticated_sees_no_backend (backend1 backend2 : RPCBackend)
    (cred : string) (req : HTTPRequest) :
  ~ authenticated_post cred req ->
  run (@HTTPReq_JSONRPC backend1 cred req) = run (@HTTPReq_JSONRPC backend2 cred req)
  /\ ~ registry_invoked (fst (run (@HTTPReq_JSONRPC backend1 cred req))).
Proof.
  intros Hn.
  destruct (not_authenticated_cases cred req Hn) as [Hm | [[Hm Hh] | (Hm & Hh & Ha)]].
  - rewrite !(HTTPReq_JSONRPC_not_post cred req Hm). split; [reflexivity|].
    intros (m & a & [Hin|[]]); discriminate Hin.
  - rewrite !(HTTPReq_JSONRPC_no_header cred req Hm Hh). split; [reflexivity|].
    intros (m & a & [Hin|[]]); discriminate Hin.
  - rewrite !(HTTPReq_JSONRPC_rejected cred req Hm Hh Ha). split; [reflexivity|].
    intros (m & a & [Hin|[Hin|[Hin|[]]]]); discriminate Hin.
Qed.

Lemma unauthenticated_sees_no_backend_witness :
  let req := sample_request (Some "Basic d3Jvbmc6d3Jvbmc=") (sample_write ping_request) in
  run (@HTTPReq_JSONRPC (sample_backend (true, "Loading block index...")) "user:pass" req)
  = run (@HTTPReq_JSONRPC (sample_backend (false, EmptyString)) "user:pass" req).
Proof.
  intros req.
  refine (proj1 (unauthenticated_sees_no_backend _ _ "user:pass" req _)).
  intros (_ & _ & Ha). vm_compute in Ha. discriminate Ha.
Defined.

(** ** The shape of every run of HTTPReq_JSONRPC *)

Section Shape.
Context `{RPCBackend}.

Lemma JSONRPCExecOne_trace (req : Value) (jreq : JSONRequest) :
  exists t j r, JSONRPCExecOne req jreq = (t, j, Ret r) /\ Forall is_execute t.
Proof.
  unfold JSONRPCExecOne. eff_step.
  destruct (JSONRequest_parse_outcome req JSONRequest_new) as (j & r & -> & _).
  destruct r as [[]|[objError|what]]; eff_step;
    try (eexists _, _, _; split; [reflexivity | constructor]).
  destruct (tableRPC_execute (strMethod j) (params j)) as [result|[objError|what]];
    eff_step; eexists _, _, _; (split; [reflexivity | now repeat constructor]).
Qed.

Lemma JSONRPCExecEach_trace (vReq : Array) (jreq : JSONRequest) :
  exists t j rs, JSONRPCExecEach vReq jreq = (t, j, Ret rs) /\ Forall is_execute t.
Proof.
  revert jreq. induction vReq as [|req vReq IH]; intros jreq; simpl.
  - eexists _, _, _. split; [reflexivity | constructor].
  - eff_step. destruct (JSONRPCExecOne_trace req jreq) as (t1 & j1 & r & -> & H1).
    destruct (IH j1) as (t2 & j2 & rs & -> & H2).
    eexists _, _, _. split; [reflexivity|].
    rewrite app_nil_r. now apply Forall_app.
Qed.

Lemma HTTPReq_JSONRPC_body_trace (req : HTTPRequest) (jreq : JSONRequest) :
  exists t j r, HTTPReq_JSONRPC_body req jreq = (t, j, r)
    /\ match r with
       | Ret _ => exists calls strReply,
           Forall is_execute calls
           /\ t = calls ++ [EvWriteHeader "Content-Type" "application/json";
                            EvWriteReply HTTP_OK strReply]
       | Throw _ => Forall is_execute t
       end.
Proof.
  unfold HTTPReq_JSONRPC_body.
  destruct (read_string (ReadBody req)) as [valRequest|];
    [|eexists _, _, _; split; [reflexivity | constructor]].
  destruct RPCIsInWarmup as [[] warmupStatus];
    [eexists _, _, _; split; [reflexivity | constructor]|].
  destruct valRequest as [| | | | |a|request];
    try (eexists _, _, _; split; [reflexivity | constructor]).
  - unfold JSONRPCExecBatch. eff_step.
    destruct (JSONRPCExecEach_trace a jreq) as (t & j & rs & -> & Ht).
    eexists _, _, _; split; [reflexivity|]. exists t, (write_string (Varray rs)).
    split; [exact Ht|]. now rewrite app_nil_r.
  - eff_step.
    destruct (JSONRequest_parse_outcome (Vobj request) jreq) as (j & r & -> & _).
    destruct r as [[]|e]; [|eexists _, _, _; split; [reflexivity | constructor]].
    destruct (tableRPC_execute (strMethod j) (params j)) as [result|e].
    + eexists _, _, _; split; [reflexivity|].
      exists [EvExecute (strMethod j) (params j)],
             (JSONRPCReply result Vnull (id j)).
      split; [now repeat constructor | reflexivity].
    + eexists _, _, _; split; [reflexivity | now repeat constructor].
Qed.

(** Every run is of one of six shapes. *)
Lemma HTTPReq_JSONRPC_shape (cred : string) (req : HTTPRequest) :
  let t := fst (run (HTTPReq_JSONRPC cred req)) in
  let r := snd (run (HTTPReq_JSONRPC cred req)) in
  (t = [EvWriteReply HTTP_BAD_METHOD "JSONRPC server handles only POST requests"]
   /\ r = Ret false)
  \/ (t = [EvWriteReply HTTP_UNAUTHORIZED EmptyString] /\ r = Ret false)
  \/ (exists msg, t = [EvLogPrintf msg; EvMilliSleep 250;
                       EvWriteReply HTTP_UNAUTHORIZED EmptyString]
                  /\ r = Ret false)
  \/ (exists calls strReply,
        Forall is_execute calls
        /\ t = calls ++ [EvWriteHeader "Content-Type" "application/json";
                         EvWriteReply HTTP_OK strReply]
        /\ r = Ret true)
  \/ (exists calls code strReply,
        Forall is_execute calls
        /\ t = calls ++ [EvWriteHeader "Content-Type" "application/json";
                         EvWriteReply (JSONErrorReply_nStatus code) strReply]
        /\ r = Ret false)
  \/ (exists e, Forall is_execute t /\ r = Throw e).
Proof.
  intros t r. subst t r.
  destruct (GetRequestMethod req) eqn:Hm;
    try (left; rewrite HTTPReq_JSONRPC_not_post by congruence; now split).
  destruct (fst (GetHeader req "authorization")) eqn:Hh;
    [|right; left; rewrite (HTTPReq_JSONRPC_no_header cred req Hm Hh); now split].
  pose proof (RPCAuthorized_refines cred (snd (GetHeader req "authorization"))) as Ha.
  destruct (Authorized_spec cred (snd (GetHeader req "authorization")));
    [|do 2 right; left; rewrite (HTTPReq_JSONRPC_rejected cred req Hm Hh Ha); eauto].
  do 3 right. rewrite (HTTPReq_JSONRPC_accepted cred req Hm Hh Ha). eff_step.
  destruct (HTTPReq_JSONRPC_body_trace req JSONRequest_new) as (t & j & r & -> & Hr).
  destruct r as [[]|[objError|what]].
  - destruct Hr as (calls & strReply & Hcalls & ->). left.
    exists calls, strReply. cbn [fst snd]. rewrite app_nil_r. now repeat split.
  - right. unfold JSONErrorReply. eff_step.
    destruct (get_int (find_value objError "code")) as [code|e]; eff_step; cbn [fst snd].
    + left. exists t, code, (JSONRPCReply Vnull (Vobj objError) (id j)).
      now repeat split.
    + right. exists e. rewrite app_nil_r. now split.
  - right. left. unfold JSONErrorReply. eff_step. cbn [fst snd].
    exists t, RPC_PARSE_ERROR,
      (JSONRPCReply Vnull (Vobj (JSONRPCError RPC_PARSE_ERROR what)) (id j)).
    now repeat split.
Qed.
End Shape.

Lemma JSONErrorReply_nStatus_not_OK (code : Z) : JSONErrorReply_nStatus code <> HTTP_OK.
Proof.
  unfold JSONErrorReply_nStatus.
  destruct (code =? RPC_INVALID_REQUEST); [discriminate|].
  destruct (code =? RPC_METHOD_NOT_FOUND); discriminate.
Qed.

Lemma Forall_execute_not_reply (calls : list Event) :
  Forall is_execute calls -> Forall (fun ev => is_reply ev = false) calls.
Proof.
  intros Hc. eapply Forall_impl; [exact Hc|]. now intros [].
Qed.

Lemma response_of_calls (calls tail : list Event) :
  Forall is_execute calls -> response (calls ++ tail) = response tail.
Proof.
  unfold response. induction 1 as [|ev calls Hev _ IH]; [reflexivity|].
  rewrite <- app_comm_cons, filter_cons, IH. now destruct ev.
Qed.

(** X3. Whenever HTTPReq_JSONRPC returns, it has written exactly one reply,
    as its last action, and it returns true exactly when that reply has
    status 200; when an exception leaves it, no reply has been written.
    So WriteReply, which may be called only once per request, is never
    called twice. *)
Theorem handler_replies_exactly_once `{RPCBackend} (cred : string) (req : HTTPRequest) :
  match snd (run (HTTPReq_JSONRPC cred req)) with
  | Ret b =>
      exists before nStatus strReply,
        fst (run (HTTPReq_JSONRPC cred req)) = before ++ [EvWriteReply nStatus strReply]
        /\ Forall (fun ev => is_reply ev = false) before
        /\ (b = true <-> nStatus = HTTP_OK)
  | Throw _ =>
      Forall (fun ev => is_reply ev = false) (fst (run (HTTPReq_JSONRPC cred req)))
  end.
Proof.
  destruct (HTTPReq_JSONRPC_shape cred req)
    as [[-> ->] | [[-> ->] | [(msg & -> & ->) | [(calls & strReply & Hc & -> & ->)
        | [(calls & code & strReply & Hc & -> & ->) | (e & Hc & ->)]]]]].
  - exists [], HTTP_BAD_METHOD, "JSONRPC server handles only POST requests".
    repeat split; try constructor; discriminate.
  - exists [], HTTP_UNAUTHORIZED, EmptyString.
    repeat split; try constructor; discriminate.
  - exists [EvLogPrintf msg; EvMilliSleep 250], HTTP_UNAUTHORIZED, EmptyString.
    repeat split; try (now repeat constructor); discriminate.
  - exists (calls ++ [EvWriteHeader "Content-Type" "application/json"]), HTTP_OK, strReply.
    rewrite <- app_assoc. repeat split.
    apply Forall_app. split; [now apply Forall_execute_not_reply | now repeat constructor].
  - exists (calls ++ [EvWriteHeader "Content-Type" "application/json"]),
      (JSONErrorReply_nStatus code), strReply.
    rewrite <- app_assoc. repeat split.
    + apply Forall_app. split; [now apply Forall_execute_not_reply | now repeat constructor].
    + discriminate.
    + intros Hs. now apply JSONErrorReply_nStatus_not_OK in Hs.
  - now apply Forall_execute_not_reply.
Qed.

(** X4. The client sees one of four responses: 405 with the fixed text,
    401 with an empty body, or the header Content-Type: application/json
    followed by a reply whose status is 200, 400, 404 or 500; nothing at
    all when an exception leaves the handler. The content type is written
    exactly with the replies that carry JSON. *)
Theorem response_is_one_of_four `{RPCBackend} (cred : string) (req : HTTPRequest) :
  let seen := response (fst (run (HTTPReq_JSONRPC cred req))) in
  seen = [EvWriteReply HTTP_BAD_METHOD "JSONRPC server handles only POST requests"]
  \/ seen = [EvWriteReply HTTP_UNAUTHORIZED EmptyString]
  \/ (exists nStatus strReply,
        seen = [EvWriteHeader "Content-Type" "application/json";
                EvWriteReply nStatus strReply]
        /\ (nStatus = HTTP_OK \/ nStatus = HTTP_BAD_REQUEST
            \/ nStatus = HTTP_NOT_FOUND \/ nStatus = HTTP_INTERNAL_SERVER_ERROR))
  \/ (seen = [] /\ exists e, snd (run (HTTPReq_JSONRPC cred req)) = Throw e).
Proof.
  intros seen. subst seen.
  destruct (HTTPReq_JSONRPC_shape cred req)
    as [[-> ->] | [[-> ->] | [(msg & -> & ->) | [(calls & strReply & Hc & -> & ->)
        | [(calls & code & strReply & Hc & -> & ->) | (e & Hc & ->)]]]]].
  - now left.
  - right. now left.
  - right. now left.
  - do 2 right. left. exists HTTP_OK, strReply.
    rewrite (response_of_calls calls _ Hc). split; [reflexivity | now left].
  - do 2 right. left. exists (JSONErrorReply_nStatus code), strReply.
    rewrite (response_of_calls calls _ Hc). split; [reflexivity|]. right.
    unfold JSONErrorReply_nStatus.
    destruct (code =? RPC_INVALID_REQUEST); [now left|].
    destruct (code =? RPC_METHOD_NOT_FOUND); [right; now left | right; now right].
  - do 3 right. split; [|now exists e].
    rewrite <- (app_nil_r (fst _)). now rewrite (response_of_calls _ [] Hc).
Qed.

(** ** RPCAuthorized: other credentials, white space *)

(** X5. A header that carries the base64 encoding of any string other than
    the stored credential is rejected. *)
Theorem other_credential_is_rejected (cred offered : string) :
  offered <> cred ->
  RPCAuthorized cred ("Basic " +:+ EncodeBase64 offered) = Ret false.
Proof.
  intros Hne. rewrite RPCAuthorized_refines.
  destruct (decide (cred = EmptyString)) as [->|Hc]; [reflexivity|].
  rewrite Authorized_spec_Basic by exact Hc.
  rewrite trim_no_space by apply EncodeBase64_no_space.
  now rewrite DecodeBase64_checked_Encode, bool_decide_eq_false_2.
Qed.

Lemma other_credential_is_rejected_witness :
  RPCAuthorized "user:pass" "Basic dXNlcjpwYXM=" = Ret false.
Proof. apply (other_credential_is_rejected "user:pass" "user:pas"). discriminate. Defined.

(** X6. White space around the payload of a Basic header is ignored: with
    any run of white space before and after, RPCAuthorized answers as it
    does for the bare payload. *)
Theorem surrounding_space_is_ignored (cred payload ws1 ws2 : string) :
  all_space ws1 = true -> all_space ws2 = true ->
  RPCAuthorized cred ("Basic " +:+ ws1 +:+ payload +:+ ws2)
  = RPCAuthorized cred ("Basic " +:+ payload).
Proof.
  intros H1 H2. rewrite !RPCAuthorized_refines. f_equal.
  destruct (decide (cred = EmptyString)) as [->|Hc]; [reflexivity|].
  rewrite !Authorized_spec_Basic by exact Hc.
  now rewrite (trim_surrounded ws1 payload ws2 H1 H2).
Qed.

Lemma surrounding_space_is_ignored_witness :
  RPCAuthorized "user:pass" ("Basic " +:+ "  " +:+ "dXNlcjpwYXNz" +:+ newline)
  = RPCAuthorized "user:pass" ("Basic " +:+ "dXNlcjpwYXNz").
Proof.
  apply (surrounding_space_is_ignored "user:pass" "dXNlcjpwYXNz" "  " newline);
    reflexivity.
Defined.

(** ** Start-up: the password policy, the argument map, the registrations *)

Lemma map_subscript_lookup (k k' : string) (m : gmap string string) :
  snd (map_subscript k m) !! k'
  = if decide (k' = k) then Some (default EmptyString (m !! k)) else m !! k'.
Proof.
  unfold map_subscript. destruct (m !! k) as [v|] eqn:Hk; cbn [snd default].
  - destruct (decide (k' = k)) as [->|_]; [exact Hk | reflexivity].
  - destruct (decide (k' = k)) as [->|Hne];
      [apply lookup_insert_eq | now apply lookup_insert_ne].
Qed.

Section Startup.
Variables (RequireRPCPassword : bool) (strConfigFile strRandPwd : string) (g : Globals).

Let rpcuser := default EmptyString (mapArgs g !! "-rpcuser").
Let rpcpassword := default EmptyString (mapArgs g !! "-rpcpassword").
Let init := InitRPCAuthentication RequireRPCPassword strConfigFile strRandPwd g.

Lemma InitRPCAuthentication_unfolded :
  init =
  let m2 := snd (map_subscript "-rpcpassword" (snd (map_subscript "-rpcuser" (mapArgs g)))) in
  let weak := (String.eqb rpcpassword EmptyString || String.eqb rpcuser rpcpassword)
              && RequireRPCPassword in
  ({| mapArgs := m2;
      strRPCUserColonPass := rpcuser +:+ ":" +:+ rpcpassword;
      httpRPCTimerInterface := httpRPCTimerInterface g;
      pathHandlers := pathHandlers g;
      timerInterface := timerInterface g;
      messageBoxes := messageBoxes g
                      ++ (if weak then [(strConfigFile, strRandPwd)] else []) |},
   negb weak).
Proof.
  subst init rpcuser rpcpassword. unfold InitRPCAuthentication.
  pose proof (map_subscript_value "-rpcuser" (mapArgs g)) as Hu.
  pose proof (map_subscript_other "-rpcuser" "-rpcpassword" (mapArgs g)
                ltac:(discriminate)) as Ho.
  destruct (map_subscript "-rpcuser" (mapArgs g)) as [u m1]. cbn [snd] in *.
  pose proof (map_subscript_value "-rpcpassword" m1) as Hp.
  destruct (map_subscript "-rpcpassword" m1) as [pw m2].
  simpl in Hu, Ho, Hp. rewrite Ho in Hp. subst u pw. cbn [snd].
  match goal with |- context [if ?c then _ else _] => destruct c end;
    cbn [negb]; [reflexivity | now rewrite app_nil_r].
Qed.

(** X7. InitRPCAuthentication fails exactly when a password is required
    and the configured password is empty or equal to the user name. It then
    shows one message box, with the configuration file and the suggested
    random password; when it succeeds it shows none. *)
Theorem weak_password_is_refused :
  (snd init = false <->
   RequireRPCPassword = true
   /\ (rpcpassword = EmptyString \/ rpcuser = rpcpassword))
  /\ messageBoxes (fst init)
     = messageBoxes g ++ (if snd init then [] else [(strConfigFile, strRandPwd)]).
Proof.
  rewrite InitRPCAuthentication_unfolded. cbn [fst snd messageBoxes]. split.
  - rewrite negb_false_iff, andb_true_iff, orb_true_iff, !String.eqb_eq. tauto.
  - now destruct ((String.eqb rpcpassword EmptyString || String.eqb rpcuser rpcpassword)
                  && RequireRPCPassword).
Qed.

(** X8. Reading the two arguments with operator[] leaves them in the
    argument map: after InitRPCAuthentication the keys -rpcuser and
    -rpcpassword are present, with their configured value or the empty
    string, and every other key is as it was. *)
Theorem init_inserts_missing_arguments (k : string) :
  mapArgs (fst init) !! k
  = if decide (k = "-rpcuser" \/ k = "-rpcpassword")
    then Some (default EmptyString (mapArgs g !! k))
    else mapArgs g !! k.
Proof.
  rewrite InitRPCAuthentication_unfolded. cbn [fst mapArgs].
  rewrite !map_subscript_lookup.
  destruct (decide (k = "-rpcpassword")) as [->|Hp].
  - rewrite decide_False by discriminate.
    now rewrite decide_True by (now right).
  - destruct (decide (k = "-rpcuser")) as [->|Hu].
    + now rewrite decide_True by (now left).
    + rewrite decide_False by (intros [?|?]; contradiction). reflexivity.
Qed.

Lemma StartHTTPRPC_registrations (EventBase : option nat) (g' : Globals) (ok : bool) :
  StartHTTPRPC RequireRPCPassword strConfigFile strRandPwd EventBase g = Some (g', ok) ->
  ok = snd init
  /\ strRPCUserColonPass g' = rpcuser +:+ ":" +:+ rpcpassword
  /\ (if ok
      then pathHandlers g' = ("/", true) :: pathHandlers g
           /\ timerInterface g' = Some "HTTP"
           /\ httpRPCTimerInterface g' = EventBase
           /\ EventBase <> None
      else pathHandlers g' = pathHandlers g
           /\ timerInterface g' = timerInterface g
           /\ httpRPCTimerInterface g' = httpRPCTimerInterface g).
Proof.
  unfold StartHTTPRPC. fold init. rewrite InitRPCAuthentication_unfolded. cbn zeta.
  destruct ((String.eqb rpcpassword EmptyString || String.eqb rpcuser rpcpassword)
            && RequireRPCPassword); cbn [negb].
  - intros [= <- <-]. now repeat split.
  - destruct EventBase as [base|]; [|discriminate]. intros [= <- <-]. now repeat split.
Qed.

(** X9. StartHTTPRPC registers all or nothing. When it returns true the
    handler of "/" (exact match) is registered, and the timer interface
    named HTTP, built on the event base, is stored and registered; when it
    returns false, handlers, timer interface and pointer are as they were.
    The credential is stored in both cases. *)
Theorem start_registers_all_or_nothing (EventBase : option nat) (g' : Globals) (ok : bool) :
  StartHTTPRPC RequireRPCPassword strConfigFile strRandPwd EventBase g = Some (g', ok) ->
  ok = snd init
  /\ strRPCUserColonPass g' = rpcuser +:+ ":" +:+ rpcpassword
  /\ (if ok
      then pathHandlers g' = ("/", true) :: pathHandlers g
           /\ timerInterface g' = Some "HTTP"
           /\ httpRPCTimerInterface g' = EventBase
           /\ EventBase <> None
      else pathHandlers g' = pathHandlers g
           /\ timerInterface g' = timerInterface g
           /\ httpRPCTimerInterface g' = httpRPCTimerInterface g).
Proof. apply StartHTTPRPC_registrations. Qed.
End Startup.

Lemma start_registers_all_or_nothing_witness :
  let g := {| mapArgs := {["-rpcuser" := "user"; "-rpcpassword" := "pass"]};
              strRPCUserColonPass := EmptyString;
              httpRPCTimerInterface := None; pathHandlers := [];
              timerInterface := None; messageBoxes := [] |} in
  exists g', StartHTTPRPC true "bitcoin.conf" "3vQB7B6MrGQZaxCuFg4oh" (Some 1%nat) g
             = Some (g', true)
             /\ strRPCUserColonPass g' = "user:pass"
             /\ pathHandlers g' = [("/", true)].
Proof.
  intros g.
  destruct (StartHTTPRPC true "bitcoin.conf" "3vQB7B6MrGQZaxCuFg4oh" (Some 1%nat) g)
    as [[g' ok]|] eqn:Hs; [|vm_compute in Hs; discriminate Hs].
  pose proof (start_registers_all_or_nothing true "bitcoin.conf" "3vQB7B6MrGQZaxCuFg4oh"
                g (Some 1%nat) g' ok Hs) as (Hok & Hcred & Hreg).
  vm_compute in Hok. subst ok. destruct Hreg as (Hh & _).
  exists g'. split; [reflexivity|]. split; [exact Hcred | exact Hh].
Defined.

(** ** StopHTTPRPC *)

Lemma UnregisterHTTPHandler_absent (prefix : string) (exactMatch : bool)
    (handlers : list (string * bool)) :
  ~ In (prefix, exactMatch) handlers ->
  UnregisterHTTPHandler prefix exactMatch handlers = handlers.
Proof.
  induction handlers as [|[p e] rest IH]; intros Hn; [reflexivity|]. simpl.
  destruct (String.eqb_spec p prefix) as [->|Hp]; simpl.
  - destruct (Bool.eqb_spec e exactMatch) as [->|He]; [destruct Hn; now left|].
    f_equal. apply IH. intros Hin. apply Hn. now right.
  - f_equal. apply IH. intros Hin. apply Hn. now right.
Qed.

Lemma handler_match (h : string * bool) (prefix : string) (exactMatch : bool) :
  String.eqb (fst h) prefix && Bool.eqb (snd h) exactMatch = true
  <-> h = (prefix, exactMatch).
Proof.
  destruct h as [p e]. cbn [fst snd]. split.
  - intros [Hp He]%andb_prop. apply String.eqb_eq in Hp. apply Bool.eqb_prop in He.
    now subst.
  - intros [= -> ->]. now rewrite String.eqb_refl, Bool.eqb_reflx.
Qed.

Lemma UnregisterHTTPHandler_inserted (prefix : string) (exactMatch : bool)
    (before after : list (string * bool)) :
  Permutation (UnregisterHTTPHandler prefix exactMatch
                 (before ++ (prefix, exactMatch) :: after))
              (before ++ after)
  /\ (~ In (prefix, exactMatch) before ->
      UnregisterHTTPHandler prefix exactMatch (before ++ (prefix, exactMatch) :: after)
      = before ++ after).
Proof.
  induction before as [|h before [IHp IHe]].
  - cbn [app UnregisterHTTPHandler].
    rewrite (proj2 (handler_match (prefix, exactMatch) prefix exactMatch) eq_refl).
    split; [reflexivity | now intros _].
  - cbn [app UnregisterHTTPHandler].
    destruct (String.eqb (fst h) prefix && Bool.eqb (snd h) exactMatch) eqn:Hm.
    + apply handler_match in Hm. subst h. split.
      * symmetry. apply Permutation_middle.
      * intros Hn. destruct Hn. now left.
    + split.
      * now apply Permutation_skip.
      * intros Hn. f_equal. apply IHe. intros Hin. apply Hn. now right.
Qed.

Lemma StopHTTPRPC_never_started (g : Globals) :
  httpRPCTimerInterface g = None ->
  ~ In ("/", true) (pathHandlers g) ->
  StopHTTPRPC g = g.
Proof.
  intros Hp Hn. unfold StopHTTPRPC.
  rewrite Hp, (UnregisterHTTPHandler_absent "/" true _ Hn).
  destruct g. cbn in *. now subst.
Qed.

(** X10. StopHTTPRPC on a state in which nothing is started (no timer
    interface pointer, no handler of "/") changes nothing, whatever the
    state is otherwise. After a successful StartHTTPRPC, StopHTTPRPC leaves
    no timer interface stored or registered and keeps the credential, the
    arguments and the message boxes; the handlers are those from before the
    start up to their order, and exactly those when "/" was not registered
    before the start, so that a second StopHTTPRPC then changes nothing.
    The two statements on the handlers do not depend on where the
    registration of "/" is put: removing it after inserting it anywhere in
    the list gives the list back up to order, and exactly when no handler of
    "/" precedes it. *)
Theorem stop_undoes_start (RequireRPCPassword : bool) (strConfigFile strRandPwd : string)
    (EventBase : option nat) (g g' : Globals) :
  (forall g0, httpRPCTimerInterface g0 = None ->
              ~ In ("/", true) (pathHandlers g0) ->
              StopHTTPRPC g0 = g0)
  /\ (forall before after,
        Permutation (UnregisterHTTPHandler "/" true (before ++ ("/", true) :: after))
                    (before ++ after)
        /\ (~ In ("/", true) before ->
            UnregisterHTTPHandler "/" true (before ++ ("/", true) :: after)
            = before ++ after))
  /\ (StartHTTPRPC RequireRPCPassword strConfigFile strRandPwd EventBase g = Some (g', true) ->
      httpRPCTimerInterface (StopHTTPRPC g') = None
      /\ timerInterface (StopHTTPRPC g') = None
      /\ strRPCUserColonPass (StopHTTPRPC g') = strRPCUserColonPass g'
      /\ mapArgs (StopHTTPRPC g') = mapArgs g'
      /\ messageBoxes (StopHTTPRPC g') = messageBoxes g'
      /\ Permutation (pathHandlers (StopHTTPRPC g')) (pathHandlers g)
      /\ (~ In ("/", true) (pathHandlers g) ->
          pathHandlers (StopHTTPRPC g') = pathHandlers g
          /\ StopHTTPRPC (StopHTTPRPC g') = StopHTTPRPC g')).
Proof.
  split; [exact StopHTTPRPC_never_started|].
  split; [intros before after; apply UnregisterHTTPHandler_inserted|].
  intros Hs.
  apply StartHTTPRPC_registrations in Hs as (_ & _ & Hh & Ht & Hp & Hb).
  destruct (UnregisterHTTPHandler_inserted "/" true [] (pathHandlers g)) as [Hperm Heq].
  cbn [app] in Hperm, Heq. specialize (Heq ltac:(intros [])).
  assert (Hstop : StopHTTPRPC g'
                  = {| mapArgs := mapArgs g';
                       strRPCUserColonPass := strRPCUserColonPass g';
                       httpRPCTimerInterface := None;
                       pathHandlers := UnregisterHTTPHandler "/" true
                                         (("/", true) :: pathHandlers g);
                       timerInterface := None;
                       messageBoxes := messageBoxes g' |}).
  { unfold StopHTTPRPC. rewrite Hp, Hh. now destruct EventBase. }
  rewrite Hstop. cbn [httpRPCTimerInterface timerInterface strRPCUserColonPass
                      mapArgs messageBoxes pathHandlers].
  do 5 (split; [reflexivity|]).
  split; [exact Hperm|].
  intros Hn. split; [exact Heq|].
  apply StopHTTPRPC_never_started; cbn [httpRPCTimerInterface pathHandlers];
    [reflexivity|].
  now rewrite Heq.
Qed.

Lemma stop_undoes_start_witness :
  let g := {| mapArgs := {["-rpcuser" := "user"; "-rpcpassword" := "pass"]};
              strRPCUserColonPass := EmptyString;
              httpRPCTimerInterface := None; pathHandlers := [("/rest/tx/", false)];
              timerInterface := None; messageBoxes := [] |} in
  StopHTTPRPC g = g
  /\ UnregisterHTTPHandler "/" true [("/rest/tx/", false); ("/", true)]
     = [("/rest/tx/", false)]
  /\ exists g', StartHTTPRPC true "bitcoin.conf" "3vQB7B6MrGQZaxCuFg4oh" (Some 1%nat) g
                = Some (g', true)
                /\ pathHandlers (StopHTTPRPC g') = [("/rest/tx/", false)]
                /\ timerInterface (StopHTTPRPC g') = None
                /\ StopHTTPRPC (StopHTTPRPC g') = StopHTTPRPC g'.
Proof.
  intros g.
  destruct (StartHTTPRPC true "bitcoin.conf" "3vQB7B6MrGQZaxCuFg4oh" (Some 1%nat) g)
    as [[g' ok]|] eqn:Hs; [|vm_compute in Hs; discriminate Hs].
  assert (Hok : ok = true).
  { apply StartHTTPRPC_credential in Hs as [_ Hok]. vm_compute in Hok. exact Hok. }
  subst ok.
  assert (Hfree : ~ In ("/", true) (pathHandlers g)).
  { intros [[=]|[]]. }
  pose proof (stop_undoes_start true "bitcoin.conf" "3vQB7B6MrGQZaxCuFg4oh"
                (Some 1%nat) g g') as (Hnever & Hins & Hstart).
  split; [apply Hnever; [reflexivity | exact Hfree]|].
  split.
  { apply (proj2 (Hins [("/rest/tx/", false)] [])). intros [[=]|[]]. }
  exists g'. split; [reflexivity|].
  destruct (Hstart Hs) as (_ & Ht & _ & _ & _ & _ & Hh).
  destruct (Hh Hfree) as [Hhandlers Hidem].
  split; [exact Hhandlers|]. split; [exact Ht | exact Hidem].
Defined.

(* ===================================================================== *)
(** * Properties of rpcconsole.cpp *)
(* ===================================================================== *)

(** ** The tokenizer *)

Lemma plain_head (c : ascii) (s : string) :
  plain (String c s) = true ->
  is_escape c = false /\ is_c c = false /\ is_quote c = false /\ plain s = true.
Proof.
  simpl. intros [Hc Hs]%andb_prop. apply negb_true_iff in Hc.
  apply orb_false_elim in Hc as [[He Hsep]%orb_false_elim Hq]. now repeat split.
Qed.

Lemma escaped_list_scan_plain (w rest : string) (bInQuote : bool) (tok : string) :
  plain w = true ->
  escaped_list_scan (w +:+ rest) bInQuote tok
  = escaped_list_scan rest bInQuote (tok +:+ w).
Proof.
  revert tok. induction w as [|c w IH]; intros tok Hw.
  - rewrite append_nil. f_equal. clear. induction tok as [|x tok IH]; [reflexivity|].
    rewrite append_cons. now rewrite <- IH.
  - apply plain_head in Hw as (He & Hsep & Hq & Hw).
    rewrite append_cons. cbn [escaped_list_scan]. rewrite He, Hsep, Hq.
    rewrite (IH _ Hw), append_assoc. reflexivity.
Qed.

Lemma quotable_head (c : ascii) (s : string) :
  quotable (String c s) = true ->
  is_escape c = false /\ is_quote c = false /\ quotable s = true.
Proof.
  simpl. intros [Hc Hs]%andb_prop. apply negb_true_iff in Hc.
  apply orb_false_elim in Hc as [He Hq]. now repeat split.
Qed.

Lemma escaped_list_scan_quoted (w rest tok : string) :
  quotable w = true ->
  escaped_list_scan (w +:+ rest) true tok = escaped_list_scan rest true (tok +:+ w).
Proof.
  revert tok. induction w as [|c w IH]; intros tok Hw.
  - rewrite append_nil. f_equal. clear. induction tok as [|x tok IH]; [reflexivity|].
    rewrite append_cons. now rewrite <- IH.
  - apply quotable_head in Hw as (He & Hq & Hw).
    rewrite append_cons. cbn [escaped_list_scan]. rewrite He, Hq.
    destruct (is_c c); rewrite (IH _ Hw), append_assoc; reflexivity.
Qed.

Lemma append_empty_r (s : string) : s +:+ EmptyString = s.
Proof. induction s as [|c s IH]; [reflexivity|]. rewrite append_cons. now rewrite IH. Qed.

Lemma escaped_list_scan_words (w : string) (ws : list string) (tok : string) :
  plain w = true -> Forall (fun x => plain x = true) ws ->
  escaped_list_scan (join_words (w :: ws)) false tok = Ret ((tok +:+ w) :: ws).
Proof.
  intros Hw Hws. revert w tok Hw.
  induction Hws as [|w' ws Hw' _ IH]; intros w tok Hw.
  - cbn [join_words]. rewrite <- (append_empty_r w) at 1.
    now rewrite escaped_list_scan_plain.
  - change (join_words (w :: w' :: ws)) with (w +:+ " " +:+ join_words (w' :: ws)).
    rewrite escaped_list_scan_plain by exact Hw.
    change (" " +:+ join_words (w' :: ws))
      with (String (ascii_of_nat 32) (join_words (w' :: ws))).
    cbn [escaped_list_scan]. change (is_escape (ascii_of_nat 32)) with false.
    change (is_c (ascii_of_nat 32)) with true. cbn iota.
    now rewrite (IH w' EmptyString Hw').
Qed.

Lemma escaped_list_tokens_scan (s : string) :
  s <> EmptyString -> escaped_list_tokens s = escaped_list_scan s false EmptyString.
Proof. now destruct s. Qed.

Lemma append_not_empty_l (a b : string) : a <> EmptyString -> a +:+ b <> EmptyString.
Proof. destruct a; [congruence | discriminate]. Qed.

Lemma join_words_not_empty (w : string) (ws : list string) :
  w <> EmptyString -> join_words (w :: ws) <> EmptyString.
Proof.
  intros Hw. destruct ws as [|w' ws]; [exact Hw|].
  change (join_words (w :: w' :: ws)) with (w +:+ " " +:+ join_words (w' :: ws)).
  now apply append_not_empty_l.
Qed.

(** X11. A command line made of a method name and arguments that hold no
    space, quote or backslash, separated by single spaces, is executed
    with exactly that method and those arguments (empty arguments between
    two spaces included). *)
Theorem request_splits_at_spaces `{RPCBackend} `{ConsoleBackend}
    (method : string) (args : list string) :
  method <> EmptyString ->
  plain method = true ->
  Forall (fun a => plain a = true) args ->
  escaped_list_tokens (join_words (method :: args)) = Ret (method :: args)
  /\ RPCExecutor_request (join_words (method :: args))
     = RPCExecutor_dispatch method args.
Proof.
  intros Hne Hm Ha.
  assert (Ht : escaped_list_tokens (join_words (method :: args)) = Ret (method :: args)).
  { rewrite escaped_list_tokens_scan by now apply join_words_not_empty.
    now rewrite escaped_list_scan_words. }
  split; [exact Ht|]. unfold RPCExecutor_request. now rewrite Ht.
Qed.

(** X12. An argument written between double quotes may hold spaces: the
    line method "text" is executed with the single argument text, for any
    text without quote and backslash. *)
Theorem quoted_argument_is_one `{RPCBackend} `{ConsoleBackend} (method text : string) :
  method <> EmptyString ->
  plain method = true ->
  quotable text = true ->
  RPCExecutor_request (method +:+ " " +:+ dquote +:+ text +:+ dquote)
  = RPCExecutor_dispatch method [text].
Proof.
  intros Hne Hm Ht. unfold RPCExecutor_request.
  rewrite escaped_list_tokens_scan by now apply append_not_empty_l.
  rewrite escaped_list_scan_plain by exact Hm.
  change (" " +:+ dquote +:+ text +:+ dquote)
    with (String (ascii_of_nat 32) (String (ascii_of_nat 34) (text +:+ dquote))).
  cbn [escaped_list_scan]. change (is_escape (ascii_of_nat 32)) with false.
  change (is_c (ascii_of_nat 32)) with true.
  change (is_escape (ascii_of_nat 34)) with false.
  change (is_c (ascii_of_nat 34)) with false.
  change (is_quote (ascii_of_nat 34)) with true. cbn iota. cbn [negb].
  rewrite escaped_list_scan_quoted by exact Ht. reflexivity.
Qed.

Lemma no_escape_head (c : ascii) (s : string) :
  no_escape (String c s) = true -> is_escape c = false /\ no_escape s = true.
Proof. simpl. intros [Hc Hs]%andb_prop. now apply negb_true_iff in Hc. Qed.

Lemma escaped_list_scan_trailing_escape (s : string) (bInQuote : bool) (tok : string) :
  no_escape s = true ->
  escaped_list_scan (s +:+ backslash) bInQuote tok
  = Throw (ExStd "cannot end with escape").
Proof.
  revert bInQuote tok. induction s as [|c s IH]; intros b tok Hs; [reflexivity|].
  apply no_escape_head in Hs as [He Hs]. rewrite append_cons.
  cbn [escaped_list_scan]. rewrite He.
  destruct (is_c c); [destruct b|destruct (is_quote c)]; rewrite ?IH by exact Hs;
    reflexivity.
Qed.

(** X13. A command line that ends in a backslash (and holds no other) is
    not executed: the tokenizer throws before the try block, so the
    exception leaves RPCExecutor::request, the registry is not called and
    no reply is emitted. *)
Theorem trailing_backslash_escapes `{RPCBackend} `{ConsoleBackend} (command : string) :
  no_escape command = true ->
  RPCExecutor_request (command +:+ backslash)
  = ([], Throw (ExStd "cannot end with escape")).
Proof.
  intros Hc. unfold RPCExecutor_request.
  rewrite escaped_list_tokens_scan by (destruct command; discriminate).
  now rewrite escaped_list_scan_trailing_escape.
Qed.

Lemma request_splits_at_spaces_witness :
  RPCExecutor_request (H := sample_backend (false, EmptyString)) (H0 := sample_console)
    "ping now  please"
  = ([ConsoleExecute "ping" [Vstr "now"; Vstr ""; Vstr "please"];
      SigReply CMD_REPLY "pong"], Ret tt).
Proof.
  refine (eq_trans (proj2 (request_splits_at_spaces (H := sample_backend (false, EmptyString))
            (H0 := sample_console) "ping" ["now"; ""; "please"] _ _ _)) _);
    [discriminate | reflexivity | repeat constructor | reflexivity].
Defined.

Lemma quoted_argument_is_one_witness :
  RPCExecutor_request (H := sample_backend (false, EmptyString)) (H0 := sample_console)
    ("ping " +:+ dquote +:+ "right now" +:+ dquote)
  = ([ConsoleExecute "ping" [Vstr "right now"]; SigReply CMD_REPLY "pong"], Ret tt).
Proof.
  refine (eq_trans (quoted_argument_is_one (H := sample_backend (false, EmptyString))
            (H0 := sample_console) "ping" "right now" _ _ _) _);
    [discriminate | reflexivity | reflexivity | reflexivity].
Defined.

Lemma trailing_backslash_escapes_witness :
  RPCExecutor_request (H := sample_backend (false, EmptyString)) (H0 := sample_console)
    ("ping now" +:+ backslash)
  = ([], Throw (ExStd "cannot end with escape")).
Proof.
  apply (trailing_backslash_escapes (H := sample_backend (false, EmptyString))
           (H0 := sample_console) "ping now").
  reflexivity.
Defined.

(** ** The executor *)

(** X14. Whatever the conversion of the arguments and the registry do
    (return, throw an error object of any shape, throw a std::exception),
    executing a method emits exactly one reply signal, as the last thing,
    and no exception leaves. The reply is a CMD_REPLY exactly when both
    returned; its text is then empty for null, the bare text for a string
    and the pretty-printed JSON otherwise. The registry is called at most
    once, and not at all when the conversion fails. *)
Theorem dispatch_replies_exactly_once `{RPCBackend} `{ConsoleBackend}
    (strMethod : string) (strParams : list string) :
  exists calls category text,
    RPCExecutor_dispatch strMethod strParams
    = (calls ++ [SigReply category text], Ret tt)
    /\ match RPCConvertValues strMethod strParams with
       | Ret args =>
           calls = [ConsoleExecute strMethod args]
           /\ match tableRPC_execute strMethod (Varray args) with
              | Ret result =>
                  category = CMD_REPLY
                  /\ text = match result with
                            | Vnull => EmptyString
                            | Vstr s => s
                            | _ => write_string_pretty result
                            end
              | Throw (ExObject objError) =>
                  category = CMD_ERROR /\ text = write_string (Vobj objError)
              | Throw (ExStd what) =>
                  category = CMD_ERROR /\ text = "Error: " +:+ what
              end
       | Throw (ExObject objError) =>
           calls = [] /\ category = CMD_ERROR /\ text = write_string (Vobj objError)
       | Throw (ExStd what) =>
           calls = [] /\ category = CMD_ERROR /\ text = "Error: " +:+ what
       end.
Proof.
  unfold RPCExecutor_dispatch.
  destruct (RPCConvertValues strMethod strParams) as [args|[objError|what]].
  - destruct (tableRPC_execute strMethod (Varray args)) as [result|[objError|what]].
    + now eexists [_], _, _.
    + now eexists [_], _, _.
    + now eexists [_], _, _.
  - now eexists [], _, _.
  - now eexists [], _, _.
Qed.

(** ** The history of the command line *)

Lemma enforce_history_size_lastn (h : list string) :
  enforce_history_size h = lastn 50 h.
Proof.
  unfold lastn. induction h as [|x h IH]; [reflexivity|].
  cbn [enforce_history_size]. unfold CONSOLE_HISTORY.
  destruct (Z.ltb_spec 50 (Z.of_nat (length (x :: h)))) as [Hlt|Hle]; cbn [length] in *.
  - rewrite IH. replace (S (length h) - 50)%nat with (S (length h - 50)) by lia.
    reflexivity.
  - replace (S (length h) - 50)%nat with 0%nat by lia. reflexivity.
Qed.

Lemma lastn_length {A} (n : nat) (l : list A) : length (lastn n l) = Nat.min n (length l).
Proof. unfold lastn. rewrite length_drop. lia. Qed.

Lemma lastn_snoc {A} (n : nat) (l : list A) (x : A) :
  (0 < n)%nat -> exists kept, lastn n (l ++ [x]) = kept ++ [x] /\ kept = lastn (n - 1) l.
Proof.
  intros Hn. unfold lastn. rewrite length_app. cbn [length].
  exists (drop (length l - (n - 1)) l). split; [|reflexivity].
  replace (length l + 1 - n)%nat with (length l - (n - 1))%nat by lia.
  rewrite drop_app_le by lia. reflexivity.
Qed.

Lemma lastn_lastn_snoc {A} (n : nat) (l : list A) (x : A) :
  lastn n (lastn n l ++ [x]) = lastn n (l ++ [x]).
Proof.
  unfold lastn. rewrite !length_app, length_drop. cbn [length].
  rewrite !drop_app, drop_drop, length_drop. f_equal; f_equal; lia.
Qed.

Lemma Forall_lastn {A} (P : A -> Prop) (n : nat) (l : list A) :
  Forall P l -> Forall P (lastn n l).
Proof. apply Forall_drop. Qed.

Lemma console_invariant_step (a : ConsoleAction) (c : RPCConsole) :
  console_invariant c -> console_invariant (console_step a c).
Proof.
  intros (Hptr & Hsize & Hne). unfold console_invariant, CONSOLE_HISTORY in *.
  destruct a as [text| | |]; cbn [console_step].
  - now cbn.
  - unfold on_lineEdit_returnPressed. destruct (empty (lineEdit c)) eqn:He; [now cbn|].
    cbn [history historyPtr]. rewrite enforce_history_size_lastn, lastn_length.
    repeat split; try lia. apply Forall_lastn, Forall_app. split.
    + now apply Forall_take.
    + constructor; [|constructor]. intros Hcmd. rewrite Hcmd in He. discriminate He.
  - unfold browseHistory. cbn [history historyPtr].
    repeat split; try assumption;
      destruct (historyPtr c + -1 <? 0) eqn:E1;
      [ destruct (Z.of_nat (length (history c)) <? 0) eqn:E2
      | destruct (Z.of_nat (length (history c)) <? historyPtr c + -1) eqn:E2
      | destruct (Z.of_nat (length (history c)) <? 0) eqn:E2
      | destruct (Z.of_nat (length (history c)) <? historyPtr c + -1) eqn:E2 ]; lia.
  - unfold browseHistory. cbn [history historyPtr].
    repeat split; try assumption;
      destruct (historyPtr c + 1 <? 0) eqn:E1;
      [ destruct (Z.of_nat (length (history c)) <? 0) eqn:E2
      | destruct (Z.of_nat (length (history c)) <? historyPtr c + 1) eqn:E2
      | destruct (Z.of_nat (length (history c)) <? 0) eqn:E2
      | destruct (Z.of_nat (length (history c)) <? historyPtr c + 1) eqn:E2 ]; lia.
Qed.

Lemma console_run_app (a b : list ConsoleAction) (c : RPCConsole) :
  console_run (a ++ b) c = console_run b (console_run a c).
Proof. unfold console_run. apply fold_left_app. Qed.

(** X15. Whatever the user types and whichever keys are pressed, the
    history never holds more than CONSOLE_HISTORY (50) commands, never
    holds an empty command, and the pointer stays between 0 and the size
    of the history: the erase and the at() of the history functions are
    always within bounds. *)
Theorem history_stays_bounded (welcome : string) (acts : list ConsoleAction) :
  console_invariant (console_run acts (RPCConsole_new welcome)).
Proof.
  assert (Hgen : forall c, console_invariant c -> console_invariant (console_run acts c)).
  { unfold console_run. induction acts as [|a acts IH]; intros c Hc; [exact Hc|].
    cbn [fold_left]. apply IH, console_invariant_step, Hc. }
  apply Hgen. unfold console_invariant, CONSOLE_HISTORY. cbn. repeat split; try lia.
  constructor.
Qed.

Lemma returnPressed_history (c : RPCConsole) :
  lineEdit c <> EmptyString ->
  on_lineEdit_returnPressed c
  = {| lineEdit := EmptyString;
       history := lastn 50 (take (Z.to_nat (historyPtr c)) (history c) ++ [lineEdit c]);
       historyPtr :=
         Z.of_nat (length (lastn 50 (take (Z.to_nat (historyPtr c)) (history c)
                                     ++ [lineEdit c])));
       shown := shown c ++ [(CMD_REQUEST, lineEdit c, false)];
       cmdRequest := cmdRequest c ++ [lineEdit c] |}.
Proof.
  intros Hne. unfold on_lineEdit_returnPressed.
  destruct (empty (lineEdit c)) eqn:He; [now apply empty_spec in He|].
  now rewrite enforce_history_size_lastn.
Qed.

(** X16. Pressing Return on a non-empty line sends the command to the
    executor once, shows it as a request, clears the line and makes it the
    newest entry of the history; the older entries kept are the newest (at
    most 49) of those before the pointer, so whatever was at or after the
    pointer is dropped. The pointer is moved past the end, and one press
    of Up brings the command back into the line. *)
Theorem return_records_the_command (c : RPCConsole) :
  lineEdit c <> EmptyString ->
  let cmd := lineEdit c in
  let c' := on_lineEdit_returnPressed c in
  lineEdit c' = EmptyString
  /\ cmdRequest c' = cmdRequest c ++ [cmd]
  /\ shown c' = shown c ++ [(CMD_REQUEST, cmd, false)]
  /\ history c' = lastn 49 (take (Z.to_nat (historyPtr c)) (history c)) ++ [cmd]
  /\ historyPtr c' = Z.of_nat (length (history c'))
  /\ lineEdit (browseHistory (-1) c') = cmd.
Proof.
  intros Hne cmd c'. subst c'. rewrite (returnPressed_history c Hne). fold cmd.
  destruct (lastn_snoc 50 (take (Z.to_nat (historyPtr c)) (history c)) cmd ltac:(lia))
    as (kept & Hk & Hkept).
  cbn [Nat.sub] in Hkept. rewrite Hk. cbn [lineEdit cmdRequest shown history historyPtr].
  do 3 (split; [reflexivity|]). split; [now rewrite Hkept|]. split; [reflexivity|].
  unfold browseHistory. cbn [lineEdit history historyPtr].
  rewrite length_app. cbn [length].
  destruct (Z.ltb_spec (Z.of_nat (length kept + 1) + -1) 0) as [?|_]; [lia|].
  destruct (Z.ltb_spec (Z.of_nat (length kept + 1)) (Z.of_nat (length kept + 1) + -1))
    as [?|_]; [lia|].
  destruct (Z.ltb_spec (Z.of_nat (length kept + 1) + -1) (Z.of_nat (length kept + 1)))
    as [_|?]; [|lia].
  replace (Z.to_nat (Z.of_nat (length kept + 1) + -1)) with (length kept) by lia.
  now rewrite app_nth2, Nat.sub_diag by lia.
Qed.

Lemma return_records_the_command_witness :
  let c := {| lineEdit := "getinfo"; history := ["help"; "stop"; "ping"];
              historyPtr := 1; shown := []; cmdRequest := ["help"; "stop"; "ping"] |} in
  history (on_lineEdit_returnPressed c) = ["help"; "getinfo"]
  /\ lineEdit (browseHistory (-1) (on_lineEdit_returnPressed c)) = "getinfo".
Proof.
  intros c.
  destruct (return_records_the_command c ltac:(discriminate))
    as (_ & _ & _ & Hh & _ & Hup).
  split; [exact Hh | exact Hup].
Defined.

(** X17. Pressing Return on an empty line does nothing: no request is
    sent, no message is shown, history and pointer are unchanged. *)
Theorem return_on_empty_line_is_ignored (c : RPCConsole) :
  lineEdit c = EmptyString -> on_lineEdit_returnPressed c = c.
Proof.
  intros He. unfold on_lineEdit_returnPressed. rewrite He. cbn [empty].
  destruct c. cbn in *. now subst.
Qed.

Lemma return_on_empty_line_is_ignored_witness :
  on_lineEdit_returnPressed (RPCConsole_new "Welcome") = RPCConsole_new "Welcome".
Proof. apply (return_on_empty_line_is_ignored (RPCConsole_new "Welcome")). reflexivity. Defined.

Lemma submit_all_from (cmds : list string) :
  Forall (fun cmd => cmd <> EmptyString) cmds ->
  forall (c : RPCConsole) (before : list string),
    history c = lastn 50 before ->
    historyPtr c = Z.of_nat (length (history c)) ->
    cmdRequest c = before ->
    let c' := console_run (submit_all cmds) c in
    history c' = lastn 50 (before ++ cmds)
    /\ historyPtr c' = Z.of_nat (length (history c'))
    /\ cmdRequest c' = before ++ cmds.
Proof.
  induction 1 as [|cmd cmds Hcmd _ IH]; intros c before Hh Hp Hr.
  - cbn. now rewrite app_nil_r.
  - cbn [submit_all flat_map app]. unfold console_run. cbn [fold_left console_step].
    rewrite returnPressed_history by exact Hcmd.
    cbn [lineEdit history historyPtr shown cmdRequest].
    rewrite Hp, Nat2Z.id, take_ge by lia. rewrite Hh, lastn_lastn_snoc, Hr.
    match goal with |- context [fold_left _ _ ?c1] =>
      specialize (IH c1 (before ++ [cmd]) eq_refl eq_refl eq_refl) end.
    cbn zeta in IH. unfold console_run, submit_all in IH.
    now rewrite <- !app_assoc in IH.
Qed.

(** X18. Commands entered one after the other in a fresh console are all
    sent to the executor, in order, and the history holds the last 50 of
    them, oldest first. *)
Theorem history_keeps_the_last_fifty (welcome : string) (cmds : list string) :
  Forall (fun cmd => cmd <> EmptyString) cmds ->
  let c := console_run (submit_all cmds) (RPCConsole_new welcome) in
  history c = lastn 50 cmds
  /\ cmdRequest c = cmds
  /\ historyPtr c = Z.of_nat (length (history c)).
Proof.
  intros Hc c.
  destruct (submit_all_from cmds Hc (RPCConsole_new welcome) [] eq_refl eq_refl eq_refl)
    as (Hh & Hp & Hr).
  now repeat split.
Qed.

Lemma history_keeps_the_last_fifty_witness :
  history (console_run (submit_all ["help"; "getinfo"]) (RPCConsole_new "Welcome"))
  = ["help"; "getinfo"].
Proof.
  refine (proj1 (history_keeps_the_last_fifty "Welcome" ["help"; "getinfo"] _)).
  repeat constructor; discriminate.
Defined.

Lemma browse_up_once (c : RPCConsole) :
  0 <= historyPtr c <= Z.of_nat (length (history c)) ->
  history c <> [] ->
  historyPtr (browseHistory (-1) c) = Z.max 0 (historyPtr c - 1)
  /\ lineEdit (browseHistory (-1) c)
     = nth (Z.to_nat (Z.max 0 (historyPtr c - 1))) (history c) EmptyString
  /\ history (browseHistory (-1) c) = history c.
Proof.
  intros Hp Hh.
  assert (0 < Z.of_nat (length (history c)))
    by (destruct (history c); cbn; [congruence | lia]).
  unfold browseHistory. cbn [historyPtr lineEdit history].
  destruct (Z.ltb_spec (historyPtr c + -1) 0) as [Hlt|Hge].
  - destruct (Z.ltb_spec (Z.of_nat (length (history c))) 0) as [?|_]; [lia|].
    destruct (Z.ltb_spec 0 (Z.of_nat (length (history c)))) as [_|?]; [|lia].
    replace (Z.max 0 (historyPtr c - 1)) with 0 by lia. now repeat split.
  - destruct (Z.ltb_spec (Z.of_nat (length (history c))) (historyPtr c + -1)) as [?|_]; [lia|].
    destruct (Z.ltb_spec (historyPtr c + -1) (Z.of_nat (length (history c)))) as [_|?]; [|lia].
    replace (Z.max 0 (historyPtr c - 1)) with (historyPtr c + -1) by lia.
    now repeat split.
Qed.

(** X19. With a non-empty history and the pointer within it, k presses of
    Up (k at least 1) move the pointer back by k, stopping at the oldest
    entry, and show the entry the pointer is then at; the history itself is
    not changed. One press of Down with the pointer at the newest entry or
    past it empties the line and puts the pointer past the end. *)
Theorem browsing_walks_the_history (c : RPCConsole) (k : nat) :
  0 <= historyPtr c <= Z.of_nat (length (history c)) ->
  history c <> [] ->
  let up := console_run (repeat Key_Up (S k)) c in
  let p := Z.max 0 (historyPtr c - Z.of_nat (S k)) in
  historyPtr up = p
  /\ lineEdit up = nth (Z.to_nat p) (history c) EmptyString
  /\ history up = history c
  /\ (Z.of_nat (length (history c)) - 1 <= historyPtr c ->
      lineEdit (console_step Key_Down c) = EmptyString
      /\ historyPtr (console_step Key_Down c) = Z.of_nat (length (history c))).
Proof.
  intros Hp Hh up p. subst up p.
  assert (Hup : historyPtr (console_run (repeat Key_Up (S k)) c)
                = Z.max 0 (historyPtr c - Z.of_nat (S k))
                /\ lineEdit (console_run (repeat Key_Up (S k)) c)
                   = nth (Z.to_nat (Z.max 0 (historyPtr c - Z.of_nat (S k))))
                         (history c) EmptyString
                /\ history (console_run (repeat Key_Up (S k)) c) = history c).
  { revert c Hp Hh. induction k as [|k IH]; intros c Hp Hh.
    - unfold console_run. cbn [repeat fold_left console_step].
      now apply browse_up_once.
    - change (repeat Key_Up (S (S k))) with (Key_Up :: repeat Key_Up (S k)).
      unfold console_run. cbn [fold_left console_step].
      fold (console_run (repeat Key_Up (S k)) (browseHistory (-1) c)).
      destruct (browse_up_once c Hp Hh) as (Hp1 & _ & Hh1).
      destruct (IH (browseHistory (-1) c)) as (Hp2 & Hl2 & Hh2).
      + rewrite Hh1, Hp1. lia.
      + now rewrite Hh1.
      + rewrite Hp2, Hl2, Hh2, Hp1, Hh1.
        replace (Z.max 0 (Z.max 0 (historyPtr c - 1) - Z.of_nat (S k)))
          with (Z.max 0 (historyPtr c - Z.of_nat (S (S k)))) by lia.
        now repeat split. }
  destruct Hup as (H1 & H2 & H3). do 3 (split; [assumption|]).
  intros Hend. cbn [console_step]. unfold browseHistory. cbn [lineEdit historyPtr history].
  destruct (Z.ltb_spec (historyPtr c + 1) 0) as [?|_]; [lia|].
  destruct (Z.ltb_spec (Z.of_nat (length (history c))) (historyPtr c + 1)) as [Hlt|Hge].
  - now rewrite Z.ltb_irrefl.
  - replace (historyPtr c + 1) with (Z.of_nat (length (history c))) by lia.
    now rewrite Z.ltb_irrefl.
Qed.

Lemma browsing_walks_the_history_witness :
  let c := {| lineEdit := EmptyString; history := ["help"; "stop"; "ping"];
              historyPtr := 3; shown := []; cmdRequest := [] |} in
  lineEdit (console_run [Key_Up; Key_Up] c) = "stop"
  /\ lineEdit (console_run [Key_Up; Key_Up; Key_Up; Key_Up; Key_Up] c) = "help".
Proof.
  intros c. split.
  - refine (proj1 (proj2 (browsing_walks_the_history c 1 _ _)));
      [cbn; lia | discriminate].
  - refine (proj1 (proj2 (browsing_walks_the_history c 4 _ _)));
      [cbn; lia | discriminate].
Defined.

(* ===================================================================== *)
(** * An error object without a code *)
(* ===================================================================== *)

(** X20. JSONErrorReply reads the status from the code of the error object
    before it writes anything. When the registry, in an authenticated,
    well-formed single call outside warm-up, throws an error object whose
    code is missing or not an integer, get_int throws inside the catch
    handler: the exception leaves HTTPReq_JSONRPC and nothing is written to
    the response. *)
Theorem error_object_without_code_escapes `{RPCBackend} (cred : string) (req : HTTPRequest)
    (request objError : Object) (warmupStatus m : string) (p : Value) :
  authenticated_post cred req ->
  read_string (ReadBody req) = Some (Vobj request) ->
  RPCIsInWarmup = (false, warmupStatus) ->
  single_call request = Some (m, p) ->
  tableRPC_execute m p = Throw (ExObject objError) ->
  type (find_value objError "code") <> int_type ->
  (exists e, run (HTTPReq_JSONRPC cred req) = ([EvExecute m p], Throw e))
  /\ response (fst (run (HTTPReq_JSONRPC cred req))) = [].
Proof.
  intros Hauth Hread Hwarm Hcall Hexec Hcode.
  rewrite (body_single_call cred req request warmupStatus m p Hauth Hread Hwarm Hcall).
  rewrite Hexec.
  destruct (find_value objError "code"); cbn [get_int]; try (split; [eauto | reflexivity]).
  now destruct Hcode.
Qed.

Lemma error_object_without_code_escapes_witness :
  let backend :=
    {| read_string := sample_read; write_string := sample_write;
       tableRPC_execute := fun _ _ => Throw (ExObject [("message", Vstr "no code")]);
       RPCIsInWarmup := (false, EmptyString) |} in
  response (fst (run (HTTPReq_JSONRPC "user:pass"
                        (sample_request (Some "Basic dXNlcjpwYXNz")
                                        (sample_write ping_request)))))
  = [].
Proof.
  intros backend.
  refine (proj2 (error_object_without_code_escapes "user:pass"
            (sample_request (Some "Basic dXNlcjpwYXNz") (sample_write ping_request))
            [("method", Vstr "ping"); ("params", Varray []); ("id", Vint 7)]
            [("message", Vstr "no code")] EmptyString "ping" (Varray [])
            _ _ _ _ _ _));
    [repeat split | reflexivity | reflexivity | reflexivity | reflexivity | discriminate].
Defined.
